(** * pyPSQC: region partitioning, feature assembly and linear scoring

    A shallow embedding of the Python package [pyPSQC] (files [utils.py],
    [feature_extraction.py], [quality_prediction.py]) and the properties of
    its region partitioner, settings calculator, feature-vector assembler
    and scoring engine.

    Conventions of the embedding.
    - Python floats are modelled by exact rationals [Q]: every arithmetic
      operation is the exact one, and the binary64 rounding of each
      operation, infinities and NaN are outside the model.  Feature values
      and scores are such numbers; what is proved of a score holds whatever
      the rounding.
    - The arithmetic on the voxels of an image is that of the element type
      of its array, the class [Scalar]: wrapping for [int16], rounded for
      [float64], and exact for the images of the pipeline, whose settings
      only pass through to the extractor.
    - Mask voxels are integers [Z]; the cast to 8 bits and the 64-bit
      accumulator of numpy's sums are written out with their wrap-around.
    - Python exceptions are values of [exn]; a computation that may raise
      has a [result] type, and code that also touches Python objects runs in
      the state-and-exception monad [M] over an explicit object store.
    - Python dictionaries keep insertion order, so a dictionary is an
      association list; the dictionaries the code shares between caller and
      callee live in the store and are handled through their reference.
    - The radiomics extractor is an external collaborator: it is the one
      method of the class [FeatureExtractor]. *)

From Stdlib Require Import QArith Qround Lqa.
From stdpp Require Import base list strings sorting gmap.

#[global] Instance Q_eq_dec : EqDecision Q.
Proof. solve_decision. Defined.

Local Open Scope Z_scope.

(** ** Python: exceptions and results *)

Inductive exn : Type :=
  | ValueError (msg : string)
  | IndexError (msg : string)
  | KeyError (key : string)
  | TypeError (msg : string)
  | AttributeError (msg : string)
  | RuntimeError (msg : string)
  | ExtractorError (msg : string).

Inductive result (A : Type) : Type :=
  | Ok (a : A)
  | Raise (e : exn).
Arguments Ok {A} a.
Arguments Raise {A} e.

Definition rbind {A B} (r : result A) (k : A → result B) : result B :=
  match r with
  | Ok a => k a
  | Raise e => Raise e
  end.

Declare Scope result_scope.
Delimit Scope result_scope with result.
Notation "'let?' x ':=' r 'in' k" := (rbind r (λ x, k))
  (at level 10, x pattern, r at level 100, k at level 200) : result_scope.

(** [for x in xs: ys.append(f(x))] for a body that may raise. *)
Fixpoint rmapM {A B} (f : A → result B) (xs : list A) : result (list B) :=
  match xs with
  | [] => Ok []
  | x :: xs' =>
      (let? y := f x in
       let? ys := rmapM f xs' in
       Ok (y :: ys))%result
  end.

(** ** Python built-ins on numbers *)

Module py.

(** [a < b] on numbers. *)
Definition lt (a b : Q) : bool := negb (Qle_bool b a).

(** [min(a, b)]: the first argument is kept unless the second is
    strictly smaller. *)
Definition min (a b : Q) : Q := if lt b a then b else a.

(** [max(a, b)]: the first argument is kept unless the second is
    strictly greater. *)
Definition max (a b : Q) : Q := if lt a b then b else a.

(** Rounding to the nearest integer, ties to the even one. *)
Definition round_half_even (x : Q) : Z :=
  let f := Qfloor x in
  match Qcompare (x - inject_Z f) (1 # 2) with
  | Lt => f
  | Gt => f + 1
  | Eq => if Z.even f then f else f + 1
  end.

(** [round(x, ndigits)] for [ndigits >= 0]. *)
Definition round (x : Q) (ndigits : nat) : Q :=
  let scale := inject_Z (10 ^ Z.of_nat ndigits) in
  Qred (inject_Z (round_half_even (x * scale)) / scale).

(** [sub in s] on strings. *)
Fixpoint contains (sub s : string) : bool :=
  String.prefix sub s
  || match s with
     | EmptyString => false
     | String _ s' => contains sub s'
     end.

(** [i] as the position it denotes in a sequence of length [len] when it
    bounds a slice: negative positions count from the end, and positions
    are clipped to the sequence. *)
Definition slice_bound (len i : Z) : Z :=
  if i <? 0 then Z.max 0 (i + len) else Z.min i len.

(** [l[start:stop]]. *)
Definition slice {A} (l : list A) (start stop : Z) : list A :=
  let len := Z.of_nat (length l) in
  let s := slice_bound len start in
  let e := slice_bound len stop in
  take (Z.to_nat (e - s)) (drop (Z.to_nat s) l).

(** [l[start:]]. *)
Definition slice_from {A} (l : list A) (start : Z) : list A :=
  slice l start (Z.of_nat (length l)).

End py.

Module math.

(** [math.floor]. *)
Definition floor (x : Q) : Z := Qfloor x.

End math.

(** ** numpy *)

(** What the code uses of the scalars of an array's element type: the
    comparison behind [np.max] and [np.min], the subtraction of two scalars,
    whose result stays in the type (it wraps around in an integer type and
    is rounded in a floating type), and the true division of a scalar by a
    Python integer, which gives a float, here by its value. *)
Class Scalar (A : Type) : Type := {
  less : A → A → bool;
  subtract : A → A → A;
  true_divide : A → Z → Q
}.

(** A 3-D array, indexed [a[z][y][x]] as [sitk.GetArrayFromImage] lays a
    volume out: a list of axial slices, each a list of rows. *)
Abbreviation array3 A := (list (list (list A))) (only parsing).

Module np.

(** Sum of the products of the paired entries. *)
Fixpoint inner (a b : list Q) : Q :=
  match a, b with
  | x :: a', y :: b' => (x * y + inner a' b')%Q
  | _, _ => 0%Q
  end.

(** [np.dot(a, b)] for two 1-D arrays: the shapes must agree. *)
Definition dot (a b : list Q) : result Q :=
  if decide (length a = length b) then Ok (inner a b)
  else Raise (ValueError "shapes not aligned").

(** The entries of an array in C order. *)
Definition ravel {A} (a : array3 A) : list A := concat (concat a).

(** The lengths along the axes, slice by slice and row by row.  Two
    rectangular arrays without an empty axis have the same extents exactly
    when they have the same [shape]. *)
Definition extents {A} (a : array3 A) : list (list nat) :=
  map (map length) a.

(** The accumulator of a sum over [uint8] entries is an unsigned 64-bit
    integer (64-bit platforms). *)
Definition uint64 (z : Z) : Z := z mod 2 ^ 64.

Definition total (l : list Z) : Z := foldr Z.add 0 l.

(** [np.sum(a)] for a [uint8] array. *)
Definition sum (a : array3 Z) : Z := uint64 (total (ravel a)).

(** [a.sum(axis=(1, 2))] for a [uint8] array: one sum per axial slice. *)
Definition sum_axis12 (a : array3 Z) : list Z :=
  map (λ s, uint64 (total (concat s))) a.

(** [np.nonzero(v)[0]]: the positions of the nonzero entries, ascending;
    [i] is the position of the head of [v]. *)
Fixpoint nonzero_from (i : nat) (v : list Z) : list nat :=
  match v with
  | [] => []
  | x :: v' =>
      if decide (x = 0) then nonzero_from (S i) v'
      else i :: nonzero_from (S i) v'
  end.
Definition nonzero (v : list Z) : list nat := nonzero_from 0 v.

(** [(a > 0).astype(np.uint8)]. *)
Definition positive_uint8 (a : array3 Z) : array3 Z :=
  map (map (map (λ v, if 0 <? v then 1 else 0))) a.

(** [np.zeros_like(a)]. *)
Definition zeros_like (a : array3 Z) : array3 Z :=
  map (map (map (λ _, 0))) a.

(** [a[idx]] for an integer index array [idx]: the selected axial
    slices. *)
Definition take_slices {A} (a : array3 A) (idx : list nat)
  : result (list (list (list A))) :=
  rmapM (λ i, match a !! i with
              | Some s => Ok s
              | None => Raise (IndexError "index out of bounds")
              end) idx.

(** [a[idx] = vals]: slice [idx[j]] of [a] becomes [vals[j]]. *)
Definition put_slices {A} (a : array3 A) (idx : list nat)
    (vals : list (list (list A))) : array3 A :=
  foldl (λ acc iv, <[iv.1 := iv.2]> acc) a (zip idx vals).

(** [a != 0]. *)
Definition ne0 (a : array3 Z) : array3 bool :=
  map (map (map (λ v, negb (v =? 0)))) a.

(** [a[m]] for a boolean array [m]: the entries of [a] where [m] holds,
    in C order; the shapes must agree. *)
Definition getitem_bool {A} (a : array3 A) (m : array3 bool)
  : result (list A) :=
  if decide (extents a = extents m)
  then Ok (map fst (filter (λ xb, snd xb = true) (zip (ravel a) (ravel m))))
  else Raise (IndexError "boolean index did not match indexed array").

(** [np.max(v)] and [np.min(v)] for a 1-D array. *)
Definition max {A} `{Scalar A} (v : list A) : result A :=
  match v with
  | [] => Raise (ValueError "zero-size array to reduction operation maximum")
  | x :: v' => Ok (foldl (λ m y, if less m y then y else m) x v')
  end.
Definition min {A} `{Scalar A} (v : list A) : result A :=
  match v with
  | [] => Raise (ValueError "zero-size array to reduction operation minimum")
  | x :: v' => Ok (foldl (λ m y, if less y m then y else m) x v')
  end.

(** The [e] with [2 ^ e <= |x| < 2 ^ (e + 1)], for [x] other than 0. *)
Definition exponent (x : Q) : Z :=
  let n := Z.abs (Qnum x) in
  let d := Z.pos (Qden x) in
  let k := Z.log2 n - Z.log2 d in
  if n * 2 ^ Z.max 0 (- k) <? d * 2 ^ Z.max 0 k then k - 1 else k.

(** The [float64] nearest to [x], ties to the even significand: 53 bits of
    precision and gradual underflow from [2 ^ -1074]; the overflow to
    infinity is outside the model. *)
Definition float64 (x : Q) : Q :=
  if Qeq_bool x 0 then 0%Q
  else
    let ulp := Qpower 2 (Z.max (exponent x - 52) (-1074)) in
    Qred (inject_Z (py.round_half_even (x / ulp)) * ulp).

(** The 16-bit signed integer an integer wraps around to. *)
Definition int16 (z : Z) : Z := (z + 2 ^ 15) mod 2 ^ 16 - 2 ^ 15.

(** [a[:, :, :] = v]. *)
Definition fill (a : array3 Z) (v : Z) : array3 Z :=
  map (map (map (λ _, v))) a.

(** The position an integer index denotes on an axis of length [len]:
    a negative index counts from the end, and an index outside
    [-len, len) is an error. *)
Definition index (len : nat) (i : Z) : result nat :=
  if (i <? - Z.of_nat len) || (Z.of_nat len <=? i)
  then Raise (IndexError "index is out of bounds for axis 0")
  else Ok (Z.to_nat (if i <? 0 then i + Z.of_nat len else i)).

(** [a[i, :, :]] for an integer [i]. *)
Definition getitem_int {A} (a : array3 A) (i : Z) : result (list (list A)) :=
  (let? j := index (length a) i in
   match a !! j with
   | Some s => Ok s
   | None => Raise (IndexError "index is out of bounds for axis 0")
   end)%result.

(** [a[i, :, :] = s] for an integer [i] and a slice [s] of the shape of the
    slices of [a]. *)
Definition setitem_int {A} (a : array3 A) (i : Z) (s : list (list A))
  : result (array3 A) :=
  (let? j := index (length a) i in Ok (<[j := s]> a))%result.

End np.

(** Numbers with exact arithmetic: the element type of the image in the
    pipeline below, where no operation is rounded. *)
#[global] Instance exact_scalar : Scalar Q := {|
  less := py.lt;
  subtract := Qminus;
  true_divide := λ x n, (x / inject_Z n)%Q
|}.

(** [float64] scalars, by their values: every operation is rounded to the
    nearest [float64]. *)
Definition float64_scalar : Scalar Q := {|
  less := py.lt;
  subtract := λ x y, np.float64 (x - y);
  true_divide := λ x n, np.float64 (x / np.float64 (inject_Z n))
|}.

(** [int16] scalars: the subtraction wraps around, the division is the one
    of [float64]. *)
Definition int16_scalar : Scalar Z := {|
  less := Z.ltb;
  subtract := λ x y, np.int16 (x - y);
  true_divide := λ x n, np.float64 (inject_Z x / inject_Z n)
|}.

(** ** SimpleITK *)

(** A volume: voxels and geometry metadata. *)
Record Image (A : Type) : Type := mkImage {
  pixels : array3 A;
  spacing : list Q;
  origin : list Q;
  direction : list Q
}.
Arguments mkImage {A} _ _ _ _.
Arguments pixels {A} _.
Arguments spacing {A} _.
Arguments origin {A} _.
Arguments direction {A} _.

Module sitk.

(** [sitk.Cast(img, sitk.sitkUInt8)] on an integer volume: every voxel is
    reduced to 8 bits, the metadata is kept. *)
Definition Cast_UInt8 (img : Image Z) : Image Z :=
  mkImage (map (map (map (λ v, v mod 256))) (pixels img))
          (spacing img) (origin img) (direction img).

Definition GetDirection {A} (img : Image A) : list Q := direction img.
Definition GetOrigin {A} (img : Image A) : list Q := origin img.

Definition SetDirection {A} (img : Image A) (d : list Q) : Image A :=
  mkImage (pixels img) (spacing img) (origin img) d.
Definition SetOrigin {A} (img : Image A) (o : list Q) : Image A :=
  mkImage (pixels img) (spacing img) o (direction img).

Definition GetArrayFromImage {A} (img : Image A) : array3 A := pixels img.

(** [sitk.GetImageFromArray(a)]: unit spacing, zero origin, identity
    direction. *)
Definition GetImageFromArray {A} (a : array3 A) : Image A :=
  mkImage a [1; 1; 1]%Q [0; 0; 0]%Q [1; 0; 0; 0; 1; 0; 0; 0; 1]%Q.

(** [img.CopyInformation(src)]: origin, spacing and direction of [src];
    the two volumes must have the same size. *)
Definition CopyInformation {A B} (img : Image A) (src : Image B)
  : result (Image A) :=
  if decide (np.extents (pixels img) = np.extents (pixels src))
  then Ok (mkImage (pixels img) (spacing src) (origin src) (direction src))
  else Raise (RuntimeError "source image size does not match").

End sitk.

(** ** Python objects: values, dictionaries and the store *)

(** A reference to an object of the store. *)
Abbreviation loc := nat (only parsing).

(** What a dictionary slot holds: a float, a numpy array of numbers (the
    extractor returns its features as arrays), a text (the extractor's
    diagnostic entries), or a reference to another dictionary. *)
Inductive value : Type :=
  | VFloat (x : Q)
  | VNdarray (data : list Q)
  | VStr (s : string)
  | VRef (l : loc).

(** A dictionary in insertion order. *)
Abbreviation dict := (list (string * value)) (only parsing).

Module Dict.

Definition keys (d : dict) : list string := map fst d.
Definition values (d : dict) : list value := map snd d.

(** [d[k]]. *)
Fixpoint getitem (d : dict) (k : string) : result value :=
  match d with
  | [] => Raise (KeyError k)
  | (k', v) :: d' => if decide (k = k') then Ok v else getitem d' k
  end.

(** [d[k] = v]: an existing key keeps its position, a new key goes last. *)
Fixpoint setitem (d : dict) (k : string) (v : value) : dict :=
  match d with
  | [] => [(k, v)]
  | (k', v') :: d' =>
      if decide (k = k') then (k, v) :: d' else (k', v') :: setitem d' k v
  end.

End Dict.

(** The store: the dictionaries that exist, by reference. *)
Abbreviation heap := (gmap loc dict) (only parsing).

(** Computations over the store that may raise. *)
Definition M (A : Type) : Type := heap → result (A * heap).

Definition ret {A} (a : A) : M A := λ h, Ok (a, h).

Definition bind {A B} (m : M A) (k : A → M B) : M B :=
  λ h, match m h with
       | Ok (a, h') => k a h'
       | Raise e => Raise e
       end.

Definition lift {A} (r : result A) : M A :=
  λ h, match r with
       | Ok a => Ok (a, h)
       | Raise e => Raise e
       end.

Declare Scope M_scope.
Delimit Scope M_scope with M.
Notation "'let!' x ':=' m 'in' k" := (bind m (λ x, k))
  (at level 10, x pattern, m at level 100, k at level 200) : M_scope.

(** A new dictionary object. *)
Definition alloc (d : dict) : M loc :=
  λ h, let l := fresh (dom h) in Ok (l, <[l := d]> h).

(** The dictionary behind a reference; every reference a Python program
    holds is live, so the error case is never met from a closed store. *)
Definition load (l : loc) : M dict :=
  λ h, match h !! l with
       | Some d => Ok (d, h)
       | None => Raise (RuntimeError "dangling reference")
       end.

(** In-place update of the dictionary behind a reference. *)
Definition store (l : loc) (d : dict) : M unit :=
  λ h, Ok (tt, <[l := d]> h).

(** The dictionary a slot value refers to ([v.items()], [v.values()]). *)
Definition load_dict (v : value) : M dict :=
  match v with
  | VRef l => load l
  | _ => lift (Raise (AttributeError "object has no attribute 'items'"))
  end.

(** [for x in xs: body(x)]. *)
Fixpoint for_ {A} (xs : list A) (body : A → M unit) : M unit :=
  match xs with
  | [] => ret tt
  | x :: xs' => (let! _ := body x in for_ xs' body)%M
  end.

(** [for x in xs: ys.append(f(x))]. *)
Fixpoint mapM {A B} (f : A → M B) (xs : list A) : M (list B) :=
  match xs with
  | [] => ret []
  | x :: xs' =>
      (let! y := f x in
       let! ys := mapM f xs' in
       ret (y :: ys))%M
  end.

(** ** The radiomics extractor *)

(** A setting of the extractor. *)
Inductive setting : Type :=
  | SFloat (x : Q)
  | SBool (b : bool).

(** A [RadiomicsFeatureExtractor] built from the settings, with one feature
    class enabled, then [execute(image, mask)]: the feature vector, names to
    values in the extractor's output order, or the exception it raises. *)
Class FeatureExtractor : Type :=
  execute : list (string * setting) → Image Q → Image Z → string → result dict.

(** ** utils.py: settings, extraction, regions *)

Definition get_settings {A} `{Scalar A}
    (image_array_in : array3 A) (mask_array_in : array3 Z) (nr_bins : Z)
  : result (list (string * setting)) :=
  let mask_sum := np.sum mask_array_in in
  if decide (mask_sum = 0)
  then Raise (ValueError "Mask is empty. Cannot compute intensity range.")
  else
    (let? inside := np.getitem_bool image_array_in (np.ne0 mask_array_in) in
     let? hi := np.max inside in
     let? inside := np.getitem_bool image_array_in (np.ne0 mask_array_in) in
     let? lo := np.min inside in
     let intensity_range := subtract hi lo in
     let settings := [] in
     let settings :=
       settings ++ [("binWidth", SFloat (true_divide intensity_range nr_bins))] in
     let settings := settings ++ [("correctMask", SBool true)] in
     Ok settings)%result.

Definition get_slice_from_mask (mask_in : Image Z) (slice_nr_in : Z)
  : result (Image Z) :=
  (let mask_array := sitk.GetArrayFromImage mask_in in
   let new_mask_array := np.zeros_like mask_array in
   let new_mask_array := np.fill new_mask_array 0 in
   let? copied := np.getitem_int mask_array slice_nr_in in
   let? new_mask_array := np.setitem_int new_mask_array slice_nr_in copied in
   let new_mask := sitk.GetImageFromArray new_mask_array in
   sitk.CopyInformation new_mask mask_in)%result.

(** [float(v)] where [v] is a numpy array; other values are left alone. *)
Definition float_if_ndarray (v : value) : result value :=
  match v with
  | VNdarray [x] => Ok (VFloat x)
  | VNdarray _ =>
      Raise (TypeError "only length-1 arrays can be converted to Python scalars")
  | _ => Ok v
  end.

(** The feature vector is a new object that nothing else refers to until
    [extract_features] returns: its entries are converted on the value, and
    the object enters the store once. *)
Definition extract_features `{FeatureExtractor}
    (image : Image Q) (mask : Image Z) (feature_class : string) : M loc :=
  (let image_array := sitk.GetArrayFromImage image in
   let mask_array := sitk.GetArrayFromImage mask in
   let! settings := lift (get_settings image_array mask_array 64) in
   let! feature_vector := lift (execute settings image mask feature_class) in
   let! feature_vector :=
     lift (rmapM (λ kv, let? x := float_if_ndarray kv.2 in Ok (kv.1, x))%result
                 feature_vector) in
   alloc feature_vector)%M.

(** Lines 155-159 of [extract_radiomics_features]: the mask as it is used. *)
Definition prepare_mask (image : Image Q) (mask : Image Z) : Image Z :=
  let mask := sitk.Cast_UInt8 mask in
  let mask := sitk.SetDirection mask (sitk.GetDirection image) in
  let mask := sitk.SetOrigin mask (sitk.GetOrigin image) in
  mask.

(** Lines 162-163: the binary array of the mask. *)
Definition binary_array (mask : Image Z) : array3 Z :=
  let mask_array := sitk.GetArrayFromImage mask in
  np.positive_uint8 mask_array.

(** Line 166. *)
Definition nonzero_slices (mask_array : array3 Z) : list nat :=
  np.nonzero (np.sum_axis12 mask_array).

(** Lines 172-179: the slices of a region. *)
Definition slice_indices (region_class : string) (nonzero_slices : list nat)
  : list nat :=
  let size := inject_Z (Z.of_nat (length nonzero_slices)) in
  if decide (region_class = "apex")
  then py.slice nonzero_slices 0 (math.floor (size / 3))
  else if decide (region_class = "base")
  then py.slice_from nonzero_slices
         (Z.of_nat (length nonzero_slices) - math.floor (size / 3))
  else nonzero_slices.

(** Lines 182-183: the array of a region mask. *)
Definition region_array (mask_array : array3 Z) (slice_indices : list nat)
  : result (array3 Z) :=
  (let new_mask_array := np.zeros_like mask_array in
   let? selected := np.take_slices mask_array slice_indices in
   Ok (np.put_slices new_mask_array slice_indices selected))%result.

(** Lines 186-187: the region mask as a volume. *)
Definition region_mask (mask : Image Z) (new_mask_array : array3 Z)
  : result (Image Z) :=
  let new_mask := sitk.GetImageFromArray new_mask_array in
  sitk.CopyInformation new_mask mask.

Definition extract_radiomics_features `{FeatureExtractor}
    (image : Image Q) (mask : Image Z)
    (region_classes feature_classes : list string) : M loc :=
  (let mask := prepare_mask image mask in
   let mask_array := binary_array mask in
   let nonzero_slices := nonzero_slices mask_array in
   let! feature_vectors := alloc [] in
   let! _ :=
     for_ region_classes (λ region_class,
       let slice_indices := slice_indices region_class nonzero_slices in
       let! new_mask_array := lift (region_array mask_array slice_indices) in
       let! new_mask := lift (region_mask mask new_mask_array) in
       for_ feature_classes (λ feature_class,
         let! feature_vector :=
           extract_features image new_mask feature_class in
         let key := region_class +:+ "_" +:+ feature_class in
         let! d := load feature_vectors in
         store feature_vectors (Dict.setitem d key (VRef feature_vector)))) in
   ret feature_vectors)%M.

(** The dictionary comprehension of [extract_filtered_values]. *)
Definition without_diagnostics (feature_vector : dict) : dict :=
  filter (λ kv, py.contains "diagnostics" kv.1 = false) feature_vector.

(** The first loop assigns to keys that are there, so it runs over the keys
    the dictionary has when the loop starts. *)
Definition extract_filtered_values (extracted_features : loc)
  : M (list value) :=
  (let! d := load extracted_features in
   let! _ :=
     for_ (Dict.keys d) (λ key,
       let! d := load extracted_features in
       let! old := lift (Dict.getitem d key) in
       let! items := load_dict old in
       let! new := alloc (without_diagnostics items) in
       let! d := load extracted_features in
       store extracted_features (Dict.setitem d key (VRef new))) in
   let! d := load extracted_features in
   let! values_array :=
     mapM (λ value, let! fv := load_dict value in ret (Dict.values fv))
          (Dict.values d) in
   ret (concat values_array))%M.

(** ** feature_extraction.py *)

Definition region_classes : list string := ["wholeprostate"; "apex"; "base"].
Definition feature_classes : list string :=
  ["firstorder"; "shape"; "glcm"; "glrlm"; "glszm"; "ngtdm"; "gldm"].

Definition feature_extraction `{FeatureExtractor}
    (image : Image Q) (mask : Image Z) : M (list value) :=
  (let! extracted_features :=
     extract_radiomics_features image mask region_classes feature_classes in
   let! features_values := extract_filtered_values extracted_features in
   ret features_values)%M.

(** ** utils.py: the scoring engine *)

Definition calculate_quality_score (predictors coefs : list Q) (intercept : Q)
  : result Q :=
  (let predictors_array := predictors in
   let coefs_array := coefs in
   let? d := np.dot predictors_array coefs_array in
   let quality_score := (d + intercept)%Q in
   let capped_quality_score := py.max 0 (py.min quality_score 100) in
   Ok capped_quality_score)%result.

Definition classify_quality (quality_score quality_class_threshold : Q)
  : string :=
  if py.lt quality_score quality_class_threshold then "NOT Acceptable"
  else "Acceptable".

(** ** quality_prediction.py *)

(** The intercept of the trained model: the float that the literal
    [-589.6493539841075] denotes, [-5186610568129063 / 2 ^ 43]. *)
Definition intercept : Q := (- (5186610568129063 # 8796093022208))%Q.

(** Lines 27-28 of [quality_prediction]: score, then round to 2 decimals. *)
Definition predict_score (features_values coefs : list Q) (intercept : Q)
  : result Q :=
  (let? quality_score :=
     calculate_quality_score features_values coefs intercept in
   Ok (py.round quality_score 2))%result.

(** [quality_prediction]; [coefs] is what [read_coef_array_from_json] gave
    for the packaged [model_coef.json]. *)
Definition quality_prediction (coefs : result (list Q))
    (features_values : list Q) (quality_class_threshold : Q)
  : result (Q * string) :=
  (let? coefs := coefs in
   let? quality_score := predict_score features_values coefs intercept in
   let quality_class := classify_quality quality_score quality_class_threshold in
   Ok (quality_score, quality_class))%result.

(** ** utils.py: reading a volume *)

(** What [read_sitk_image] uses of [os.path] and of SimpleITK's readers,
    for volumes with voxels of type [A]: the extension split of a path, the
    DICOM series found in a directory, the files of the series, the series
    reader run on these files, and the single-file reader. *)
Class VolumeFiles (A : Type) : Type := {
  splitext : string → string * string;
  GetGDCMSeriesIDs : string → list string;
  GetGDCMSeriesFileNames : string → list string;
  ExecuteSeries : list string → result (Image A);
  ReadImage : string → result (Image A)
}.

Definition read_sitk_image {A} `{VolumeFiles A} (file_path : string)
  : result (Image A) :=
  if decide ((splitext file_path).2 = "")
  then
    let series_ids := GetGDCMSeriesIDs file_path in
    if decide (0 < length series_ids)%nat
    then
      let dicom_names := GetGDCMSeriesFileNames file_path in
      ExecuteSeries dicom_names
    else ReadImage file_path
  else ReadImage file_path.

(** ** prepare_data.py *)

(** [autoref] of pyAutoRef: the normalised image of a path. *)
Class Normalizer : Type := autoref : string → result (Image Q).

Definition prepare_data `{VolumeFiles Q} `{VolumeFiles Z} `{Normalizer}
    (input_image_path input_mask_path : string) (input_normalized : bool)
  : result (Image Q * Image Z) :=
  (if input_normalized
   then
     let? image := read_sitk_image (A := Q) input_image_path in
     let? mask := read_sitk_image (A := Z) input_mask_path in
     Ok (image, mask)
   else
     let? image := autoref input_image_path in
     let? mask := read_sitk_image (A := Z) input_mask_path in
     Ok (image, mask))%result.

(** ** psqc.py *)

(** The lines [psqc] prints, by what they report. *)
Inductive line : Type :=
  | Started (input_image_path input_mask_path : string)
  | Scored (quality_score : Q) (quality_class : string)
  | Done (processing_time : Q).

(** The array of predictors as [np.dot] takes it: the feature values as
    floats; a value that is not a number makes [np.dot] raise. *)
Definition predictors_array (features_values : list value)
  : result (list Q) :=
  rmapM (λ v, match v with
              | VFloat x => Ok x
              | _ => Raise (TypeError "cannot cast array data")
              end) features_values.

(** [psqc] with the two readings of the clock, [start_time] and [end_time],
    the outcome of reading the coefficient file, and the store it runs in:
    the lines printed, and the pair returned or the exception raised. *)
Definition psqc `{FeatureExtractor} `{VolumeFiles Q} `{VolumeFiles Z}
    `{Normalizer} (coefs : result (list Q))
    (input_image_path input_mask_path : string) (input_normalized : bool)
    (quality_class_threshold : Q) (start_time end_time : Q) (h : heap)
  : list line * result (Q * string) :=
  let out := [Started input_image_path input_mask_path] in
  match prepare_data input_image_path input_mask_path input_normalized with
  | Raise e => (out, Raise e)
  | Ok (image, mask) =>
      match feature_extraction image mask h with
      | Raise e => (out, Raise e)
      | Ok (features_values, _) =>
          match (let? coefs := coefs in
                 let? predictors := predictors_array features_values in
                 quality_prediction (Ok coefs) predictors
                                    quality_class_threshold)%result with
          | Raise e => (out, Raise e)
          | Ok (quality_score, quality_class) =>
              let out := out ++ [Scored quality_score quality_class] in
              let processing_time := (end_time - start_time)%Q in
              let out := out ++ [Done processing_time] in
              (out, Ok (quality_score, quality_class))
          end
      end
  end.

(** The cap of a score into a range. *)
Definition clamp (x lo hi : Q) : Q :=
  if Qlt_le_dec x lo then lo else if Qlt_le_dec hi x then hi else x.



(** The comparison of an element type orders its scalars as numbers are
    ordered: it is a strict order in which being not smaller is
    transitive. *)
Class ScalarOrder (A : Type) `{Scalar A} : Prop := {
  less_irrefl (x : A) : less x x = false;
  less_trans (x y z : A) :
    less x y = true → less y z = true → less x z = true;
  less_cotrans (x y z : A) :
    less x z = true → less x y = true ∨ less y z = true
}.

(** A mask whose voxels are 0 or 1. *)
Definition binary (a : array3 Z) : Prop :=
  Forall (Forall (Forall (λ v, v = 0 ∨ v = 1))) a.

(** An array numpy can hold: the number of entries fits its signed 64-bit
    index type. *)
Definition addressable {A} (a : array3 A) : Prop :=
  Z.of_nat (length (np.ravel a)) < 2 ^ 63.

(** An axial slice with at least one foreground voxel, and one with none. *)
Definition has_foreground (s : list (list Z)) : Prop :=
  Exists (λ v, v ≠ 0) (concat s).
Definition zero_slice (s : list (list Z)) : Prop :=
  Forall (λ v, v = 0) (concat s).

(** [ns] is the sequence of the nonzero axial-slice indices of [a], in
    slice order. *)
Definition nonzero_slice_sequence (a : array3 Z) (ns : list nat) : Prop :=
  StronglySorted lt ns
  ∧ ∀ i, i ∈ ns ↔ ∃ s, a !! i = Some s ∧ has_foreground s.

(** The nonzero slices [extract_radiomics_features] finds for a mask (lines
    155-166). *)
Definition nonzero_slices_of (image : Image Q) (mask : Image Z) : list nat :=
  nonzero_slices (binary_array (prepare_mask image mask)).

(** The region mask [extract_radiomics_features] hands to the extractor for
    a region class (lines 155-187). *)
Definition new_mask_of (image : Image Q) (mask : Image Z)
    (region_class : string) : result (Image Z) :=
  (let mask := prepare_mask image mask in
   let mask_array := binary_array mask in
   let nonzero_slices := nonzero_slices mask_array in
   let slice_indices := slice_indices region_class nonzero_slices in
   let? new_mask_array := region_array mask_array slice_indices in
   region_mask mask new_mask_array)%result.

(** [sub] occurs in [s], at any position. *)
Definition substring_of (sub s : string) : Prop :=
  ∃ pre post, s = pre +:+ sub +:+ post.

(** The store holds at [l] a dictionary of feature vectors with the
    contents [c]: in order, every key of the dictionary with the entries of
    the dictionary its slot refers to. *)
Definition slot_holds (h : heap) (l : loc)
    (kv : string * value) (kfv : string * dict) : Prop :=
  kv.1 = kfv.1 ∧ ∃ l', kv.2 = VRef l' ∧ l' ≠ l ∧ h !! l' = Some kfv.2.
Definition dict_at (h : heap) (l : loc) (c : list (string * dict)) : Prop :=
  ∃ d, h !! l = Some d ∧ Forall2 (slot_holds h l) d c.

(** The entries of the feature vector [extract_features] returns. *)
Definition feature_vector_of `{FeatureExtractor}
    (image : Image Q) (mask : Image Z) (feature_class : string)
  : result dict :=
  (let? settings := get_settings (pixels image) (pixels mask) 64 in
   let? feature_vector := execute settings image mask feature_class in
   rmapM (λ kv, let? x := float_if_ndarray kv.2 in Ok (kv.1, x))
         feature_vector)%result.

(** The feature vectors of every region class, each with those of every
    feature class, in the order of the two loops. *)
Definition feature_vectors_of `{FeatureExtractor}
    (image : Image Q) (mask : Image Z)
    (region_classes feature_classes : list string)
  : result (list (list dict)) :=
  rmapM (λ region_class,
           let? new_mask := new_mask_of image mask region_class in
           rmapM (feature_vector_of image new_mask) feature_classes)%result
        region_classes.

(** The keys of the two loops, in order. *)
Definition keys_of (region_classes feature_classes : list string)
  : list string :=
  region_class ← region_classes;
  (λ feature_class, region_class +:+ "_" +:+ feature_class) <$> feature_classes.

(** The values of a feature vector that become predictors. *)
Definition predictors_of (feature_vector : dict) : list value :=
  Dict.values (without_diagnostics feature_vector).

(** The geometry metadata of a volume. *)
Definition geometry_is (sp og dr : list Q) (m : Image Z) : Prop :=
  spacing m = sp ∧ origin m = og ∧ direction m = dr.

#[global] Instance geometry_is_dec sp og dr m : Decision (geometry_is sp og dr m).
Proof. unfold geometry_is. apply _. Defined.

(** An extractor that refuses a mask unless [accepts] holds of it, and is
    the given extractor otherwise. *)
Definition checking (accepts : Image Z → Prop) `{∀ m, Decision (accepts m)}
    (E : FeatureExtractor) : FeatureExtractor :=
  λ settings image mask feature_class,
    if decide (accepts mask) then @execute E settings image mask feature_class
    else Raise (ExtractorError "mask refused").

(** A stand-in for the extractor: one diagnostic entry, then the bin width
    it was given, the number of foreground voxels and the first spacing of
    the mask, as arrays. *)
Definition sample_extractor : FeatureExtractor :=
  λ settings image mask feature_class,
    Ok [("diagnostics_Versions_PyRadiomics", VStr "v3");
        ("original_" +:+ feature_class +:+ "_BinWidth",
         VNdarray [match settings with
                   | (_, SFloat w) :: _ => w
                   | _ => 0%Q
                   end]);
        ("original_" +:+ feature_class +:+ "_VoxelNum",
         VNdarray [inject_Z (np.total (np.ravel (pixels mask)))]);
        ("original_" +:+ feature_class +:+ "_Spacing",
         VNdarray [default 0%Q (spacing mask !! 0%nat)])].

(** The voxel of an array at slice [z], row [y], column [x]. *)
Definition voxel {A} (a : array3 A) (z y x : nat) : option A :=
  a !! z ≫= λ s, s !! y ≫= λ r, r !! x.

(** An entry of the extractor's output and the entry [extract_features]
    returns for it: the same name, and the same value unless the value is an
    array of one element, which becomes that element as a float. *)
Definition converted (kv kv' : string * value) : Prop :=
  kv'.1 = kv.1
  ∧ ((∃ x, kv.2 = VNdarray [x] ∧ kv'.2 = VFloat x)
     ∨ ((∀ data, kv.2 ≠ VNdarray data) ∧ kv'.2 = kv.2)).

(** ** Sample volumes *)

(** An image of five axial slices of one row of two voxels, and a mask for
    it with three nonzero slices (1, 2 and 3) and its own geometry. *)
Definition sample_image : Image Q :=
  mkImage [[[10; 20]]; [[30; 40]]; [[50; 60]]; [[70; 80]]; [[90; 95]]]%Q
          [1; 1; 1]%Q [0; 0; 0]%Q [1; 0; 0; 0; 1; 0; 0; 0; 1]%Q.
Definition sample_mask : Image Z :=
  mkImage [[[0; 0]]; [[0; 1]]; [[1; 1]]; [[1; 0]]; [[0; 0]]]
          [2; 2; 2]%Q [5; 5; 5]%Q [0; 1; 0; 1; 0; 0; 0; 0; 1]%Q.

(** A mask with two nonzero slices. *)
Definition thin_mask : Image Z :=
  mkImage [[[0; 1]]; [[1; 1]]; [[0; 0]]; [[0; 0]]; [[0; 0]]]
          [1; 1; 1]%Q [0; 0; 0]%Q [1; 0; 0; 0; 1; 0; 0; 0; 1]%Q.

(** A store with a dictionary of two feature vectors at reference 0. *)
Definition sample_contents : list (string * dict) :=
  [("wholeprostate_firstorder",
    [("diagnostics_Versions_PyRadiomics", VStr "v3");
     ("original_firstorder_Mean", VFloat 5)]);
   ("apex_shape",
    [("original_shape_Volume", VFloat 7);
     ("Diagnostics_note", VFloat 1);
     ("mask_diagnostics", VStr "n")])].
Definition sample_store : heap :=
  {[ 0%nat := [("wholeprostate_firstorder", VRef 1); ("apex_shape", VRef 2)];
     1%nat := [("diagnostics_Versions_PyRadiomics", VStr "v3");
               ("original_firstorder_Mean", VFloat 5)];
     2%nat := [("original_shape_Volume", VFloat 7);
               ("Diagnostics_note", VFloat 1);
               ("mask_diagnostics", VStr "n")] ]}.

(** Readers that give one volume for every path, and a normaliser that
    gives the sample image. *)
Definition sample_files {A} (volume : Image A) : VolumeFiles A :=
  {| splitext := λ p, (p, ".nii");
     GetGDCMSeriesIDs := λ _, [];
     GetGDCMSeriesFileNames := λ _, [];
     ExecuteSeries := λ _, Raise (RuntimeError "no series");
     ReadImage := λ _, Ok volume |}.
Definition sample_normalizer : Normalizer := λ _, Ok sample_image.

(** Coefficients for the 63 values the sample extractor gives. *)
Definition sample_coefs : list Q := replicate 63 (15 # 2)%Q.

(* ================================================================= *)
(** * Properties *)

(** ** Scoring engine *)

Lemma py_lt_spec (a b : Q) : py.lt a b = true ↔ (a < b)%Q.
Proof.
  unfold py.lt. rewrite negb_true_iff, <- not_true_iff_false, Qle_bool_iff.
  split; [apply Qnot_le_lt | apply Qlt_not_le].
Qed.

Lemma py_lt_false (a b : Q) : py.lt a b = false ↔ (b <= a)%Q.
Proof. unfold py.lt. by rewrite negb_false_iff, Qle_bool_iff. Qed.

(** Python's [max(0, min(x, 100))] is the clamp of the specification, up to
    the representation of the rational. *)
Lemma capped_is_clamp (x : Q) :
  (py.max 0 (py.min x 100) == clamp x 0 100)%Q.
Proof.
  unfold py.max, py.min, clamp.
  destruct (py.lt 100 x) eqn:Hhi.
  - apply py_lt_spec in Hhi.
    destruct (Qlt_le_dec x 0) as [Hlo|Hlo]; [lra|].
    destruct (Qlt_le_dec 100 x) as [_|Hle]; [reflexivity | lra].
  - apply py_lt_false in Hhi.
    destruct (py.lt 0 x) eqn:Hpos.
    + apply py_lt_spec in Hpos.
      destruct (Qlt_le_dec x 0) as [Hlo|Hlo]; [lra|].
      destruct (Qlt_le_dec 100 x) as [Hlt|_]; [lra | reflexivity].
    + apply py_lt_false in Hpos.
      destruct (Qlt_le_dec x 0) as [Hlo|Hlo]; [reflexivity|].
      destruct (Qlt_le_dec 100 x) as [Hlt|_]; lra.
Qed.

Lemma round_half_even_comp (x y : Q) :
  (x == y)%Q → py.round_half_even x = py.round_half_even y.
Proof.
  intros Hxy. unfold py.round_half_even.
  rewrite (Qfloor_comp x y Hxy).
  assert (Heq : (x - inject_Z (Qfloor y) == y - inject_Z (Qfloor y))%Q)
    by (rewrite Hxy; reflexivity).
  by rewrite (Qcompare_comp _ _ Heq (1 # 2) (1 # 2) (Qeq_refl _)).
Qed.

(** Rounding does not depend on how its argument is written. *)
Lemma round_comp (x y : Q) (n : nat) : (x == y)%Q → py.round x n = py.round y n.
Proof.
  intros Hxy. unfold py.round.
  rewrite (round_half_even_comp (x * _) (y * inject_Z (10 ^ Z.of_nat n)));
    [reflexivity | by rewrite Hxy].
Qed.

Lemma round_half_even_range (y : Q) (a b : Z) :
  (inject_Z a <= y <= inject_Z b)%Q → a ≤ py.round_half_even y ≤ b.
Proof.
  intros [Ha Hb]. unfold py.round_half_even.
  pose proof (Qfloor_resp_le _ _ Ha) as Hfa. rewrite Qfloor_Z in Hfa.
  pose proof (Qfloor_resp_le _ _ Hb) as Hfb. rewrite Qfloor_Z in Hfb.
  pose proof (Qfloor_le y) as Hlo.
  assert (Hstep : (1 # 2 <= y - inject_Z (Qfloor y))%Q → Qfloor y + 1 ≤ b).
  { intros Hge. destruct (decide (Qfloor y = b)) as [Heq|Hne]; [|lia].
    rewrite Heq in Hge. lra. }
  destruct (Qcompare_spec (y - inject_Z (Qfloor y)) (1 # 2)) as [He|Hl|Hg].
  - destruct (Z.even (Qfloor y)); [lia|].
    split; [lia|]. apply Hstep. lra.
  - lia.
  - split; [lia|]. apply Hstep. lra.
Qed.

(** Rounding to 2 decimals keeps a score within [0, 100]. *)
Lemma round_2_range (x : Q) :
  (0 <= x <= 100)%Q → (0 <= py.round x 2 <= 100)%Q.
Proof.
  intros [Hlo Hhi]. unfold py.round. rewrite Qred_correct.
  change (inject_Z (10 ^ Z.of_nat 2)) with 100%Q.
  destruct (round_half_even_range (x * 100) 0 10000) as [Hz0 Hz1].
  { change (inject_Z 0) with 0%Q. change (inject_Z 10000) with 10000%Q. lra. }
  set (z := py.round_half_even (x * 100)) in *.
  assert (H0 : (0 <= inject_Z z)%Q)
    by (change 0%Q with (inject_Z 0); by rewrite <- Zle_Qle).
  assert (H1 : (inject_Z z <= 10000)%Q)
    by (change 10000%Q with (inject_Z 10000); by rewrite <- Zle_Qle).
  unfold Qdiv. change (/ 100)%Q with (1 # 100)%Q. lra.
Qed.

Example round_ties_to_even :
  py.round (1 # 8) 2 = (3 # 25)%Q ∧ py.round (3 # 8) 2 = (19 # 50)%Q
  ∧ py.round (- (1 # 8)) 2 = (- (3 # 25))%Q.
Proof. by vm_compute. Qed.

Lemma clamp_range (x : Q) : (0 <= clamp x 0 100 <= 100)%Q.
Proof.
  unfold clamp. destruct (Qlt_le_dec x 0); [lra|].
  destruct (Qlt_le_dec 100 x); lra.
Qed.

Lemma dot_same_length (a b : list Q) :
  length a = length b → np.dot a b = Ok (np.inner a b).
Proof. intros Hlen. unfold np.dot. by rewrite decide_True. Qed.

Lemma dot_mismatch (a b : list Q) :
  length a ≠ length b → np.dot a b = Raise (ValueError "shapes not aligned").
Proof. intros Hlen. unfold np.dot. by rewrite decide_False. Qed.

(** The score lies in [0, 100]. *)
Lemma score_range (predictors coefs : list Q) (b s : Q) :
  predict_score predictors coefs b = Ok s → (0 <= s <= 100)%Q.
Proof.
  unfold predict_score, calculate_quality_score, np.dot.
  destruct (decide (length predictors = length coefs)) as [Hlen|]; [|done].
  cbn [rbind]. intros [= <-].
  rewrite (round_comp _ _ 2 (capped_is_clamp _)).
  apply round_2_range, clamp_range.
Qed.

(** The intercept is the [float64] nearest to the decimal of the source. *)
Example intercept_literal :
  intercept = np.float64 (- (5896493539841075 # 10000000000000)).
Proof. by vm_compute. Qed.

Example score_example_2 :
  quality_prediction (Ok [1; -1; 2]%Q) [10; 20; 5]%Q 85
  = Ok (0%Q, "NOT Acceptable")
  ∧ predict_score [10; 20; 5]%Q [1; -1; 2]%Q 50 = Ok 50%Q
  ∧ classify_quality 50 85 = "NOT Acceptable"
  ∧ classify_quality 50 40 = "Acceptable"
  ∧ predict_score [100; 100]%Q [1; 1]%Q 0 = Ok 100%Q
  ∧ classify_quality 85 85 = "Acceptable"
  ∧ classify_quality (85 - (1 # 100)) 85 = "NOT Acceptable".
Proof. by vm_compute. Qed.

(** C4. The class is "Acceptable" exactly when the score is at least the
    threshold and "NOT Acceptable" exactly when it is below; a score equal
    to the threshold is acceptable. *)
Theorem classify_quality_boundary (s t : Q) :
  (classify_quality s t = "Acceptable" ↔ (t <= s)%Q)
  ∧ (classify_quality s t = "NOT Acceptable" ↔ (s < t)%Q)
  ∧ classify_quality t t = "Acceptable".
Proof.
  unfold classify_quality. split_and!.
  - destruct (py.lt s t) eqn:Hlt.
    + apply py_lt_spec in Hlt. split; [done | lra].
    + apply py_lt_false in Hlt. done.
  - destruct (py.lt s t) eqn:Hlt.
    + apply py_lt_spec in Hlt. done.
    + apply py_lt_false in Hlt. split; [done | lra].
  - destruct (py.lt t t) eqn:Hlt; [|done].
    apply py_lt_spec in Hlt. lra.
Qed.

(** C5. With predictors and coefficients of unequal lengths the scoring
    raises [ValueError]: no score comes back, from the scoring function,
    from the rounding step after it, or from the whole prediction. *)
Theorem length_mismatch_raises (predictors coefs : list Q) (b t : Q) :
  length predictors ≠ length coefs →
  calculate_quality_score predictors coefs b
    = Raise (ValueError "shapes not aligned")
  ∧ predict_score predictors coefs b = Raise (ValueError "shapes not aligned")
  ∧ quality_prediction (Ok coefs) predictors t
    = Raise (ValueError "shapes not aligned")
  ∧ ∀ s, calculate_quality_score predictors coefs b ≠ Ok s.
Proof.
  intros Hlen.
  assert (Hc : ∀ c, calculate_quality_score predictors coefs c
                    = Raise (ValueError "shapes not aligned")).
  { intros c. unfold calculate_quality_score.
    by rewrite (dot_mismatch _ _ Hlen). }
  assert (Hp : ∀ c, predict_score predictors coefs c
                    = Raise (ValueError "shapes not aligned")).
  { intros c. unfold predict_score. by rewrite Hc. }
  split_and!; [done | done | | ].
  - unfold quality_prediction. cbn [rbind]. by rewrite Hp.
  - intros s. by rewrite Hc.
Qed.

Lemma length_mismatch_raises_witness :
  calculate_quality_score [1; 2; 3]%Q [1; 2]%Q 0
  = Raise (ValueError "shapes not aligned").
Proof.
  apply (length_mismatch_raises [1; 2; 3]%Q [1; 2]%Q 0 0). simpl. lia.
Defined.


(** ** Extraction settings calculator *)

Lemma ravel_map {A B} (f : A → B) (a : array3 A) :
  np.ravel (map (map (map f)) a) = map f (np.ravel a).
Proof.
  unfold np.ravel. induction a as [|s a IH]; [done|].
  cbn [map concat]. rewrite !concat_app, map_app, <- IH. f_equal.
  clear IH. induction s as [|r s IH]; [done|].
  cbn [map concat]. by rewrite map_app, IH.
Qed.

Lemma extents_map {A B} (f : A → B) (a : array3 A) :
  np.extents (map (map (map f)) a) = np.extents a.
Proof.
  unfold np.extents. induction a as [|s a IH]; [done|].
  cbn [map]. rewrite IH. f_equal.
  clear IH. induction s as [|r s IH]; [done|].
  cbn [map]. by rewrite IH, length_map.
Qed.





Lemma total_zeros (l : list Z) : Forall (λ v, v = 0) l → np.total l = 0.
Proof. induction 1 as [|v l -> _ IH]; [done|]. simpl. by rewrite IH. Qed.



(** The comparisons of the three element types are strict orders. *)
#[global] Instance exact_order : ScalarOrder Q.
Proof.
  split; cbn.
  - intros x. apply py_lt_false. lra.
  - intros x y z Hxy%py_lt_spec Hyz%py_lt_spec. apply py_lt_spec. lra.
  - intros x y z Hxz%py_lt_spec.
    destruct (py.lt x y) eqn:Hxy; [by left|]. right.
    apply py_lt_false in Hxy. apply py_lt_spec. lra.
Qed.

Lemma float64_order : @ScalarOrder Q float64_scalar.
Proof.
  split; cbn.
  - intros x. apply py_lt_false. lra.
  - intros x y z Hxy%py_lt_spec Hyz%py_lt_spec. apply py_lt_spec. lra.
  - intros x y z Hxz%py_lt_spec.
    destruct (py.lt x y) eqn:Hxy; [by left|]. right.
    apply py_lt_false in Hxy. apply py_lt_spec. lra.
Qed.






Lemma get_settings_empty_mask {A} `{S : Scalar A}
    (image_array : array3 A) (mask_array : array3 Z) (nr_bins : Z) :
  np.sum mask_array = 0 →
  get_settings image_array mask_array nr_bins
  = Raise (ValueError "Mask is empty. Cannot compute intensity range.").
Proof. intros Hsum. unfold get_settings. by rewrite decide_True. Qed.



Example get_settings_example :
  get_settings [[[3; 7]; [1; 9]]]%Q [[[0; 1]; [1; 0]]] 64
  = Ok [("binWidth", SFloat ((7 - 1) / 64)); ("correctMask", SBool true)].
Proof. reflexivity. Qed.

(** On [int16] voxels the difference of the extremes wraps around, and on
    [float64] voxels it is rounded. *)
Example get_settings_int16 :
  @get_settings Z int16_scalar [[[-32768; 32767]]] [[[1; 1]]] 64
  = Ok [("binWidth", SFloat (- (1 # 64))); ("correctMask", SBool true)]
  ∧ @get_settings Z int16_scalar [[[100; 740]]] [[[1; 1]]] 64
    = Ok [("binWidth", SFloat 10); ("correctMask", SBool true)].
Proof. by vm_compute. Qed.

Example get_settings_float64 :
  @get_settings Q float64_scalar [[[-1; 9007199254740992]]]%Q [[[1; 1]]] 64
  = Ok [("binWidth", SFloat 140737488355328); ("correctMask", SBool true)].
Proof. by vm_compute. Qed.


(** ** Region partitioner *)

Lemma nonzero_from_elem (k : nat) (v : list Z) (i : nat) :
  i ∈ np.nonzero_from k v
  ↔ ∃ j x, i = (k + j)%nat ∧ v !! j = Some x ∧ x ≠ 0.
Proof.
  revert k. induction v as [|y v IH]; intros k; cbn [np.nonzero_from].
  - split; [intros H; by apply elem_of_nil in H | by intros (j & x & _ & ? & _)].
  - destruct (decide (y = 0)) as [->|Hy].
    + rewrite IH. split.
      * intros (j & x & -> & Hj & Hx). exists (S j), x.
        split_and!; [lia | done | done].
      * intros (j & x & -> & Hj & Hx). destruct j as [|j].
        -- cbn in Hj. congruence.
        -- exists j, x. split_and!; [lia | done | done].
    + rewrite elem_of_cons, IH. split.
      * intros [->|(j & x & -> & Hj & Hx)].
        -- exists 0%nat, y. split_and!; [lia | done | done].
        -- exists (S j), x. split_and!; [lia | done | done].
      * intros (j & x & -> & Hj & Hx). destruct j as [|j].
        -- left. lia.
        -- right. exists j, x. split_and!; [lia | done | done].
Qed.

Lemma nonzero_from_sorted (k : nat) (v : list Z) :
  StronglySorted lt (np.nonzero_from k v).
Proof.
  revert k. induction v as [|y v IH]; intros k; cbn [np.nonzero_from].
  - constructor.
  - destruct (decide (y = 0)); [apply IH|].
    constructor; [apply IH|].
    apply Forall_forall. intros i Hi.
    apply nonzero_from_elem in Hi as (j & x & -> & _). lia.
Qed.

Lemma nonzero_from_bound (k : nat) (v : list Z) (i : nat) :
  i ∈ np.nonzero_from k v → (k ≤ i < k + length v)%nat.
Proof.
  intros (j & x & -> & Hj & _)%nonzero_from_elem.
  apply lookup_lt_Some in Hj. lia.
Qed.

Lemma total_nonneg (l : list Z) :
  Forall (λ v, v = 0 ∨ v = 1) l → 0 ≤ np.total l ≤ Z.of_nat (length l).
Proof.
  induction 1 as [|v l Hv _ IH]; cbn [np.total foldr length]; [lia|].
  fold (np.total l). destruct Hv as [-> | ->]; lia.
Qed.

Lemma total_pos (l : list Z) :
  Forall (λ v, v = 0 ∨ v = 1) l → Exists (λ v, v ≠ 0) l → 0 < np.total l.
Proof.
  intros Hbin Hex. induction Hbin as [|v l Hv Hbin IH];
    [by apply Exists_nil in Hex|].
  cbn [np.total foldr]. fold (np.total l).
  pose proof (total_nonneg l Hbin).
  apply Exists_cons in Hex as [Hne|Hex]; [destruct Hv; lia|].
  specialize (IH Hex). destruct Hv as [-> | ->]; lia.
Qed.

(** The wrapped sum of a binary slice that fits the accumulator is nonzero
    exactly when the slice has a foreground voxel. *)
Lemma slice_sum_nonzero (s : list (list Z)) :
  Forall (Forall (λ v, v = 0 ∨ v = 1)) s →
  Z.of_nat (length (concat s)) < 2 ^ 64 →
  np.uint64 (np.total (concat s)) ≠ 0 ↔ has_foreground s.
Proof.
  intros Hbin Hsize. unfold has_foreground, np.uint64.
  assert (Hb : Forall (λ v, v = 0 ∨ v = 1) (concat s))
    by by apply Forall_concat.
  pose proof (total_nonneg _ Hb) as Hrange.
  rewrite Z.mod_small by lia. split.
  - intros Hsum.
    destruct (decide (Exists (λ v, v ≠ 0) (concat s))) as [|Hno]; [done|].
    exfalso. apply Hsum, total_zeros.
    apply Forall_forall. intros v Hv.
    destruct (decide (v = 0)) as [|Hne]; [done|].
    exfalso. apply Hno, Exists_exists. by exists v.
  - intros Hex. pose proof (total_pos _ Hb Hex). lia.
Qed.

Lemma floor_third (n : nat) :
  math.floor (inject_Z (Z.of_nat n) / 3) = Z.of_nat (n / 3).
Proof.
  unfold math.floor. change 3%Q with (inject_Z 3).
  rewrite <- Zdiv_Qdiv. by rewrite Nat2Z.inj_div.
Qed.

(** The three regions, as positions in the sequence of nonzero slices. *)
Lemma slice_indices_regions (ns : list nat) :
  slice_indices "wholeprostate" ns = ns
  ∧ slice_indices "apex" ns = take (length ns / 3) ns
  ∧ slice_indices "base" ns = drop (length ns - length ns / 3) ns.
Proof.
  pose proof (Nat.Div0.div_le_upper_bound (length ns) 3 (length ns)) as Hdiv.
  assert (Hle : (length ns / 3 ≤ length ns)%nat) by (apply Hdiv; lia).
  unfold slice_indices. split_and!.
  - reflexivity.
  - rewrite decide_True by done. rewrite floor_third.
    unfold py.slice, py.slice_bound.
    replace (0 <? 0) with false by done.
    replace (Z.of_nat (length ns / 3) <? 0) with false by (symmetry; lia).
    rewrite (Z.min_l 0) by lia. rewrite Z.min_l by lia.
    rewrite Z.sub_0_r, Nat2Z.id. by rewrite drop_0.
  - rewrite decide_False by done. rewrite decide_True by done.
    rewrite floor_third. unfold py.slice_from, py.slice, py.slice_bound.
    replace (Z.of_nat (length ns) - Z.of_nat (length ns / 3) <? 0)
      with false by (symmetry; lia).
    replace (Z.of_nat (length ns) <? 0) with false by (symmetry; lia).
    rewrite !Z.min_l by lia.
    replace (Z.to_nat (Z.of_nat (length ns) - Z.of_nat (length ns / 3)))
      with (length ns - length ns / 3)%nat by lia.
    apply take_ge. rewrite length_drop. lia.
Qed.

Lemma slice_indices_subset (r : string) (ns : list nat) (i : nat) :
  i ∈ slice_indices r ns → i ∈ ns.
Proof.
  destruct (slice_indices_regions ns) as (_ & Hapex & Hbase).
  unfold slice_indices in *.
  destruct (decide (r = "apex")) as [_|_].
  - rewrite decide_True in Hapex by done. rewrite Hapex.
    apply subseteq_take.
  - destruct (decide (r = "base")) as [_|_]; [|done].
    rewrite decide_False, decide_True in Hbase by done. rewrite Hbase.
    apply subseteq_drop.
Qed.

Lemma take_slices_in_range {A} (a : array3 A) (idx : list nat) :
  Forall (λ i, (i < length a)%nat) idx →
  ∃ vals, np.take_slices a idx = Ok vals
          ∧ Forall2 (λ i s, a !! i = Some s) idx vals.
Proof.
  unfold np.take_slices. induction 1 as [|i idx Hi _ (vals & Heq & Hall)].
  - by exists [].
  - destruct (lookup_lt_is_Some_2 _ _ Hi) as [s Hs].
    exists (s :: vals). cbn [rmapM]. cbn beta. rewrite Hs. cbn [rbind].
    rewrite Heq.
    split; [done | by constructor].
Qed.

Lemma put_slices_length {A} (a : array3 A) idx vals :
  length (np.put_slices a idx vals) = length a.
Proof.
  unfold np.put_slices. revert a vals.
  induction idx as [|i idx IH]; intros a [|s vals]; try done.
  cbn [zip zip_with foldl]. by rewrite IH, length_insert.
Qed.

(** After [a[idx] = src[idx]], slice [j] of [a] is that of [src] when [j]
    is one of [idx], and is unchanged otherwise. *)
Lemma put_slices_lookup {A} (src a : array3 A) idx vals (j : nat) :
  length a = length src →
  Forall2 (λ i s, src !! i = Some s) idx vals →
  np.put_slices a idx vals !! j
  = if decide (j ∈ idx) then src !! j else a !! j.
Proof.
  unfold np.put_slices. intros Hlen Hall. revert a Hlen.
  induction Hall as [|i s idx vals Hs _ IH]; intros a Hlen.
  - cbn. rewrite decide_False; [done | apply not_elem_of_nil].
  - cbn [zip zip_with foldl fst snd]. rewrite IH by by rewrite length_insert.
    destruct (decide (j ∈ idx)) as [Hin|Hnin].
    + rewrite decide_True; [done | by right].
    + destruct (decide (j = i)) as [->|Hne].
      * rewrite decide_True by by left.
        rewrite list_lookup_insert_eq; [done|].
        rewrite Hlen. by eapply lookup_lt_Some.
      * rewrite decide_False by (intros [?|?]%elem_of_cons; done).
        by rewrite list_lookup_insert_ne.
Qed.

Lemma zeros_like_lookup (a : array3 Z) (j : nat) :
  np.zeros_like a !! j = map (map (λ _, 0)) <$> a !! j.
Proof. unfold np.zeros_like. apply list_lookup_fmap. Qed.

Lemma zeros_like_zero_slice (s : list (list Z)) :
  zero_slice (map (map (λ _, 0)) s).
Proof.
  unfold zero_slice. apply Forall_concat, Forall_forall.
  intros r (r' & -> & _)%list_elem_of_fmap.
  apply Forall_forall. by intros v (? & -> & _)%list_elem_of_fmap.
Qed.

Lemma extents_lookup {A B} (a : array3 A) (b : array3 B) :
  length a = length b →
  (∀ j s t, a !! j = Some s → b !! j = Some t → map length s = map length t) →
  np.extents a = np.extents b.
Proof.
  intros Hlen Hall. unfold np.extents. apply list_eq. intros j.
  rewrite !list_lookup_fmap.
  destruct (a !! j) as [s|] eqn:Ha, (b !! j) as [t|] eqn:Hb; cbn.
  - f_equal. by eapply Hall.
  - apply lookup_lt_Some in Ha. apply lookup_ge_None in Hb. lia.
  - apply lookup_lt_Some in Hb. apply lookup_ge_None in Ha. lia.
  - done.
Qed.

(** The array of a region: as large as the mask array, with the selected
    slices copied and every other slice zero. *)
Lemma region_array_spec (a : array3 Z) (idx : list nat) :
  Forall (λ i, (i < length a)%nat) idx →
  ∃ arr, region_array a idx = Ok arr
         ∧ np.extents arr = np.extents a
         ∧ ∀ j, arr !! j = if decide (j ∈ idx) then a !! j
                           else map (map (λ _, 0)) <$> a !! j.
Proof.
  intros Hidx. destruct (take_slices_in_range a idx Hidx) as (vals & Hvals & Hall).
  exists (np.put_slices (np.zeros_like a) idx vals).
  assert (Hlen : length (np.zeros_like a) = length a)
    by (unfold np.zeros_like; by rewrite length_map).
  assert (Hlook : ∀ j, np.put_slices (np.zeros_like a) idx vals !! j
                       = if decide (j ∈ idx) then a !! j
                         else map (map (λ _, 0)) <$> a !! j).
  { intros j. rewrite (put_slices_lookup a) by done.
    by rewrite zeros_like_lookup. }
  split_and!; [| | done].
  - unfold region_array. by rewrite Hvals.
  - apply extents_lookup; [by rewrite put_slices_length|].
    intros j s t Hs Ht. rewrite Hlook in Hs.
    destruct (decide (j ∈ idx)); [congruence|].
    rewrite Ht in Hs. cbn in Hs. injection Hs as <-.
    rewrite <- list_fmap_compose. apply list_fmap_ext.
    intros _ r _. cbn. by rewrite length_map.
Qed.

(** From a property of every voxel of an array to another one. *)
Ltac voxelwise H :=
  eapply Forall_impl; [exact H|]; intros ? ?Hslice;
  eapply Forall_impl; [exact Hslice|]; intros ? ?Hrow;
  eapply Forall_impl; [exact Hrow|].

Lemma map3_id (f : Z → Z) (a : array3 Z) :
  Forall (Forall (Forall (λ v, f v = v))) a → map (map (map f)) a = a.
Proof.
  intros Ha. rewrite <- (list_fmap_id a) at 2.
  apply Forall_fmap_ext_1. eapply Forall_impl; [exact Ha|].
  intros s Hs. cbn. rewrite <- (list_fmap_id s) at 2.
  apply Forall_fmap_ext_1. eapply Forall_impl; [exact Hs|].
  intros r Hr. cbn. rewrite <- (list_fmap_id r) at 2.
  by apply Forall_fmap_ext_1.
Qed.

(** On a binary mask the cast to 8 bits and the binarisation change
    nothing. *)
Lemma binary_array_of_binary (image : Image Q) (mask : Image Z) :
  binary (pixels mask) →
  pixels (prepare_mask image mask) = pixels mask
  ∧ binary_array (prepare_mask image mask) = pixels mask.
Proof.
  intros Hbin.
  assert (Hcast : map (map (map (λ v, v mod 256))) (pixels mask) = pixels mask).
  { apply map3_id. voxelwise Hbin. by intros v [-> | ->]. }
  split; [exact Hcast|].
  unfold binary_array, prepare_mask, np.positive_uint8. cbn. rewrite Hcast.
  apply map3_id. voxelwise Hbin. by intros v [-> | ->].
Qed.

Lemma slice_size_le {A} (a : array3 A) (i : nat) (s : list (list A)) :
  a !! i = Some s → (length (concat s) ≤ length (np.ravel a))%nat.
Proof.
  unfold np.ravel. revert i. induction a as [|t a IH]; intros i Hi; [done|].
  cbn [concat]. rewrite concat_app, length_app. destruct i as [|i].
  - injection Hi as ->. lia.
  - specialize (IH i Hi). lia.
Qed.

(** What line 166 computes on a binary array is the sequence of its nonzero
    slices. *)
Lemma nonzero_slices_sequence (a : array3 Z) :
  binary a → addressable a → nonzero_slice_sequence a (nonzero_slices a).
Proof.
  intros Hbin Haddr. unfold nonzero_slices, np.nonzero. split.
  - apply nonzero_from_sorted.
  - intros i. rewrite nonzero_from_elem. cbn [Nat.add].
    assert (Hslice : ∀ s, a !! i = Some s →
              np.uint64 (np.total (concat s)) ≠ 0 ↔ has_foreground s).
    { intros s Hs. apply slice_sum_nonzero.
      - unfold binary in Hbin. rewrite Forall_lookup in Hbin. by eapply Hbin.
      - pose proof (slice_size_le a i s Hs). unfold addressable in Haddr. lia. }
    unfold np.sum_axis12. split.
    + intros (j & x & -> & Hj & Hx). rewrite list_lookup_fmap in Hj.
      destruct (a !! j) as [s|] eqn:Hs; [|done]. cbn in Hj. injection Hj as <-.
      exists s. split; [done | by apply Hslice].
    + intros (s & Hs & Hfg). exists i, (np.uint64 (np.total (concat s))).
      split_and!; [done | by rewrite list_lookup_fmap, Hs | by apply Hslice].
Qed.

Lemma nonzero_slices_in_range (a : array3 Z) :
  Forall (λ i, (i < length a)%nat) (nonzero_slices a).
Proof.
  apply Forall_forall. intros i Hi%nonzero_from_bound.
  unfold np.sum_axis12 in Hi. rewrite length_map in Hi. lia.
Qed.

(** The region mask of any region class: the region array with the spacing
    of the mask and the origin and direction of the image. *)
Lemma new_mask_of_spec (image : Image Q) (mask : Image Z) (r : string) :
  let a := binary_array (prepare_mask image mask) in
  ∃ arr, region_array a (slice_indices r (nonzero_slices a)) = Ok arr
    ∧ new_mask_of image mask r
      = Ok (mkImage arr (spacing mask) (origin image) (direction image))
    ∧ np.extents arr = np.extents (pixels mask).
Proof.
  intros a.
  assert (Hidx : Forall (λ i, (i < length a)%nat)
                        (slice_indices r (nonzero_slices a))).
  { apply Forall_forall. intros i Hi%slice_indices_subset.
    pose proof (nonzero_slices_in_range a) as Hall.
    rewrite Forall_forall in Hall. by apply Hall. }
  destruct (region_array_spec a _ Hidx) as (arr & Harr & Hext & _).
  assert (Ha : np.extents a = np.extents (pixels mask)).
  { unfold a, binary_array, np.positive_uint8, sitk.GetArrayFromImage.
    rewrite extents_map. unfold prepare_mask, sitk.SetOrigin,
      sitk.SetDirection, sitk.Cast_UInt8. cbn [pixels].
    by rewrite extents_map. }
  exists arr. split_and!; [done | | congruence].
  unfold new_mask_of. fold a. rewrite Harr. cbn [rbind].
  unfold region_mask, sitk.CopyInformation, sitk.GetImageFromArray.
  cbn [pixels]. rewrite decide_True.
  - reflexivity.
  - rewrite Hext. unfold a, binary_array, np.positive_uint8,
      sitk.GetArrayFromImage. by rewrite extents_map.
Qed.

(** C1. For a binary mask whose sequence of nonzero axial-slice indices is
    [ns], of length [N]: the whole region is [ns], the apex is the first
    [N / 3] entries of [ns], the base is the entries of [ns] from position
    [N - N / 3] on, and the mask of each region is a volume as large as the
    mask in which the selected slices are those of the mask, each with a
    foreground voxel, and every other slice is zero. *)
Theorem region_partition (image : Image Q) (mask : Image Z) :
  binary (pixels mask) → addressable (pixels mask) →
  ∃ ns,
    nonzero_slice_sequence (pixels mask) ns
    ∧ nonzero_slices_of image mask = ns
    ∧ slice_indices "wholeprostate" ns = ns
    ∧ slice_indices "apex" ns = take (length ns / 3) ns
    ∧ slice_indices "base" ns = drop (length ns - length ns / 3) ns
    ∧ ∀ r, ∃ new_mask,
        new_mask_of image mask r = Ok new_mask
        ∧ np.extents (pixels new_mask) = np.extents (pixels mask)
        ∧ ∀ i s, pixels mask !! i = Some s →
            (i ∈ slice_indices r ns →
             pixels new_mask !! i = Some s ∧ has_foreground s)
            ∧ (i ∉ slice_indices r ns →
               ∃ z, pixels new_mask !! i = Some z ∧ zero_slice z).
Proof.
  intros Hbin Haddr.
  destruct (binary_array_of_binary image mask Hbin) as [_ Ha].
  exists (nonzero_slices (pixels mask)).
  pose proof (nonzero_slices_sequence _ Hbin Haddr) as Hseq.
  destruct (slice_indices_regions (nonzero_slices (pixels mask)))
    as (Hwhole & Hapex & Hbase).
  split_and!;
    [done | unfold nonzero_slices_of; by rewrite Ha | done | done | done |].
  intros r. destruct (new_mask_of_spec image mask r) as (arr & Harr & Hnew & Hext).
  rewrite Ha in Harr.
  exists (mkImage arr (spacing mask) (origin image) (direction image)).
  split_and!; [done | done |]. cbn [pixels].
  assert (Hidx : Forall (λ i, (i < length (pixels mask))%nat)
                   (slice_indices r (nonzero_slices (pixels mask)))).
  { apply Forall_forall. intros i Hi%slice_indices_subset.
    pose proof (nonzero_slices_in_range (pixels mask)) as Hall.
    rewrite Forall_forall in Hall. by apply Hall. }
  destruct (region_array_spec _ _ Hidx) as (arr' & Harr' & _ & Hlook).
  assert (arr' = arr) as -> by congruence.
  intros i s Hs. rewrite Hlook. split.
  - intros Hin. rewrite decide_True by done. split; [done|].
    apply slice_indices_subset in Hin. apply Hseq in Hin as (s' & Hs' & Hfg).
    congruence.
  - intros Hnin. rewrite decide_False by done. rewrite Hs. cbn.
    eexists. split; [reflexivity | apply zeros_like_zero_slice].
Qed.

Lemma region_partition_witness :
  ∃ ns,
    nonzero_slice_sequence (pixels sample_mask) ns
    ∧ nonzero_slices_of sample_image sample_mask = ns
    ∧ slice_indices "wholeprostate" ns = ns
    ∧ slice_indices "apex" ns = take (length ns / 3) ns
    ∧ slice_indices "base" ns = drop (length ns - length ns / 3) ns
    ∧ ∀ r, ∃ new_mask,
        new_mask_of sample_image sample_mask r = Ok new_mask
        ∧ np.extents (pixels new_mask) = np.extents (pixels sample_mask)
        ∧ ∀ i s, pixels sample_mask !! i = Some s →
            (i ∈ slice_indices r ns →
             pixels new_mask !! i = Some s ∧ has_foreground s)
            ∧ (i ∉ slice_indices r ns →
               ∃ z, pixels new_mask !! i = Some z ∧ zero_slice z).
Proof.
  apply (region_partition sample_image sample_mask).
  - repeat (constructor; try (by left); try (by right)).
  - unfold addressable. simpl. lia.
Defined.

Example sample_regions :
  let ns := nonzero_slices_of sample_image sample_mask in
  ns = [1; 2; 3]%nat
  ∧ slice_indices "wholeprostate" ns = [1; 2; 3]%nat
  ∧ slice_indices "apex" ns = [1]%nat
  ∧ slice_indices "base" ns = [3]%nat
  ∧ new_mask_of sample_image sample_mask "apex"
    = Ok (mkImage [[[0; 0]]; [[0; 1]]; [[0; 0]]; [[0; 0]]; [[0; 0]]]
                  [2; 2; 2]%Q [0; 0; 0]%Q [1; 0; 0; 0; 1; 0; 0; 0; 1]%Q).
Proof. vm_compute. done. Qed.

(** ** Dictionaries and the store *)

Lemma getitem_lookup (d : dict) (k : string) (v : value) (i : nat) :
  NoDup (Dict.keys d) → d !! i = Some (k, v) → Dict.getitem d k = Ok v.
Proof.
  unfold Dict.keys. revert i. induction d as [|[k' v'] d IH]; intros i Hnd Hi;
    [done|].
  cbn [Dict.getitem]. destruct i as [|i].
  - injection Hi as -> ->. by rewrite decide_True.
  - cbn in Hnd. apply NoDup_cons in Hnd as [Hk' Hnd].
    rewrite decide_False; [by eapply IH|].
    intros ->. apply Hk'. apply list_elem_of_fmap. exists (k', v).
    split; [done|]. by eapply list_elem_of_lookup_2.
Qed.

Lemma setitem_lookup (d : dict) (k : string) (v v' : value) (i : nat) :
  NoDup (Dict.keys d) → d !! i = Some (k, v) →
  Dict.setitem d k v' = <[i := (k, v')]> d.
Proof.
  unfold Dict.keys. revert i. induction d as [|[k' w] d IH]; intros i Hnd Hi;
    [done|].
  cbn [Dict.setitem]. destruct i as [|i].
  - injection Hi as -> ->. by rewrite decide_True.
  - cbn in Hnd. apply NoDup_cons in Hnd as [Hk' Hnd].
    rewrite decide_False; [cbn; f_equal; by eapply IH|].
    intros ->. apply Hk'. apply list_elem_of_fmap. exists (k', v).
    split; [done|]. by eapply list_elem_of_lookup_2.
Qed.

Lemma setitem_new (d : dict) (k : string) (v : value) :
  k ∉ Dict.keys d → Dict.setitem d k v = d ++ [(k, v)].
Proof.
  unfold Dict.keys. induction d as [|[k' w] d IH]; intros Hk; [done|].
  cbn [Dict.setitem]. cbn in Hk. apply not_elem_of_cons in Hk as [Hne Hk].
  rewrite decide_False by done. cbn. f_equal. by apply IH.
Qed.

Lemma slot_holds_keys (h : heap) (l : loc) d (c : list (string * dict)) :
  Forall2 (slot_holds h l) d c → Dict.keys d = c.*1.
Proof.
  unfold Dict.keys. induction 1 as [|kv kfv d c [Hk _] _ IH]; [done|].
  cbn. by rewrite Hk, IH.
Qed.

(** A slot keeps holding what it held when the store changes elsewhere. *)
Lemma slot_holds_mono (h h' : heap) (l : loc) kv kfv :
  (∀ l', l' ≠ l → l' ∈ dom h → h' !! l' = h !! l') →
  slot_holds h l kv kfv → slot_holds h' l kv kfv.
Proof.
  intros Hframe (Hk & l' & Hv & Hne & Hl'). split; [done|].
  exists l'. split_and!; [done | done |].
  rewrite Hframe; [done | done | by eapply elem_of_dom_2].
Qed.

Lemma fresh_not_in (h : heap) (l : loc) :
  l ∈ dom h → fresh (dom h) ≠ l.
Proof. intros Hl Heq. apply (is_fresh (dom h)). by rewrite Heq. Qed.

(** The second loop of [extract_filtered_values] reads the values of every
    feature vector, in order, and leaves the store alone. *)
Lemma read_values (h : heap) (l : loc) d (c : list (string * dict)) :
  Forall2 (slot_holds h l) d c →
  mapM (λ value, let! fv := load_dict value in ret (Dict.values fv))%M
       (Dict.values d) h
  = Ok ((λ kfv, Dict.values kfv.2) <$> c, h).
Proof.
  induction 1 as [|[k v] [k' fv] d c (_ & l' & Hv & _ & Hl') _ IH]; [done|].
  cbn in Hv, Hl'; subst v. cbn [Dict.values map mapM snd].
  unfold bind at 1. unfold bind at 1. cbn [load_dict]. unfold load.
  rewrite Hl'. unfold ret at 1. unfold bind at 1.
  fold (Dict.values d). rewrite IH. reflexivity.
Qed.

(** One turn of the first loop of [extract_filtered_values]: a new
    dictionary without the diagnostic entries, and the slot of the key
    turned to it. *)
Lemma filter_turn (l : loc) (h : heap) d (k : string) (l1 : loc) fv :
  h !! l = Some d → Dict.getitem d k = Ok (VRef l1) → h !! l1 = Some fv →
  (let! d := load l in
   let! old := lift (Dict.getitem d k) in
   let! items := load_dict old in
   let! new := alloc (without_diagnostics items) in
   let! d := load l in
   store l (Dict.setitem d k (VRef new)))%M h
  = Ok (tt, <[l := Dict.setitem d k (VRef (fresh (dom h)))]>
              (<[fresh (dom h) := without_diagnostics fv]> h)).
Proof.
  intros Hl Hget Hl1. unfold bind, load, lift, alloc, store.
  rewrite Hl, Hget. cbn [load_dict]. unfold load. rewrite Hl1.
  rewrite lookup_insert_ne by (apply fresh_not_in; by eapply elem_of_dom_2).
  by rewrite Hl.
Qed.

Lemma filter_loop (l : loc) (todo done_ : list (string * dict)) :
  ∀ (h : heap) d,
  h !! l = Some d →
  Forall2 (slot_holds h l) d (done_ ++ todo) →
  NoDup (done_ ++ todo).*1 →
  ∃ h' d',
    for_ todo.*1 (λ key,
      let! d := load l in
      let! old := lift (Dict.getitem d key) in
      let! items := load_dict old in
      let! new := alloc (without_diagnostics items) in
      let! d := load l in
      store l (Dict.setitem d key (VRef new)))%M h
    = Ok (tt, h')
    ∧ h' !! l = Some d'
    ∧ Forall2 (slot_holds h' l) d'
        (done_ ++ ((λ kfv, (kfv.1, without_diagnostics kfv.2)) <$> todo))
    ∧ (∀ l', l' ≠ l → l' ∈ dom h → h' !! l' = h !! l')
    ∧ take (length done_) d' = take (length done_) d
    ∧ Forall (λ kv, ∃ l', kv.2 = VRef l' ∧ l' ∉ dom h) (drop (length done_) d').
Proof.
  revert done_. induction todo as [|[k fv] todo IH]; intros done_ h d Hl Hall Hnd.
  - exists h, d. rewrite app_nil_r in *.
    split_and!; [done | done | done | done | done |].
    rewrite drop_ge; [done|]. by rewrite (Forall2_length _ _ _ Hall).
  - set (i := length done_).
    assert (Hci : (done_ ++ (k, fv) :: todo) !! i = Some (k, fv))
      by by apply list_lookup_middle.
    destruct (Forall2_lookup_r _ _ _ _ _ Hall Hci)
      as ([k0 v0] & Hdi & Hk & l1 & Hv & Hne & Hl1).
    cbn in Hk, Hv, Hl1. subst k0 v0.
    assert (Hkeys : NoDup (Dict.keys d))
      by by rewrite (slot_holds_keys _ _ _ _ Hall).
    set (lnew := fresh (dom h)).
    set (h2 := <[l := <[i := (k, VRef lnew)]> d]>
                 (<[lnew := without_diagnostics fv]> h)).
    assert (Hlnew : lnew ≠ l) by (apply fresh_not_in; by eapply elem_of_dom_2).
    assert (Hframe : ∀ l', l' ≠ l → l' ∈ dom h → h2 !! l' = h !! l').
    { intros l' Hl' Hdom. unfold h2. rewrite lookup_insert_ne by done.
      rewrite lookup_insert_ne; [done|]. by apply fresh_not_in. }
    assert (Hdom : ∀ l', l' ∈ dom h → l' ∈ dom h2).
    { intros l' Hl'. unfold h2. rewrite !dom_insert_L. set_solver. }
    destruct (IH (done_ ++ [(k, without_diagnostics fv)]) h2
                 (<[i := (k, VRef lnew)]> d))
      as (h' & d' & Hrun & Hl' & Hall' & Hfr & Htake & Hdrop).
    + unfold h2. by rewrite lookup_insert_eq.
    + rewrite <- app_assoc. cbn [app].
      replace (done_ ++ (k, without_diagnostics fv) :: todo)
        with (<[i := (k, without_diagnostics fv)]> (done_ ++ (k, fv) :: todo)).
      2:{ unfold i. rewrite insert_app_r_alt by done.
          by rewrite Nat.sub_diag. }
      apply Forall2_insert.
      * eapply Forall2_impl; [exact Hall|]. intros kv kfv.
        by apply slot_holds_mono.
      * split; [done|]. exists lnew. split_and!; [done | done |].
        unfold h2. rewrite lookup_insert_ne by done.
        by rewrite lookup_insert_eq.
    + rewrite <- app_assoc. cbn [app].
      by rewrite fmap_app, fmap_cons in *.
    + rewrite length_app in Htake, Hdrop. cbn [length] in Htake, Hdrop.
      fold i in Htake, Hdrop. rewrite Nat.add_1_r in Htake, Hdrop.
      assert (Hi : (i < length d)%nat) by by eapply lookup_lt_Some.
      assert (Hd'i : d' !! i = Some (k, VRef lnew)).
      { rewrite <- (lookup_take_lt d' (S i)) by lia. rewrite Htake.
        rewrite lookup_take_lt by lia. by apply list_lookup_insert_eq. }
      exists h', d'. split_and!.
      * cbn [fmap list_fmap fst for_]. unfold bind at 1.
        rewrite (filter_turn l h d k l1 fv Hl
                   (getitem_lookup d k _ i Hkeys Hdi) Hl1).
        rewrite (setitem_lookup d k _ _ i Hkeys Hdi). exact Hrun.
      * done.
      * rewrite <- app_assoc in Hall'. exact Hall'.
      * intros l' Hne' Hin. rewrite Hfr by eauto. by apply Hframe.
      * apply (f_equal (take i)) in Htake.
        rewrite !take_take, Nat.min_l in Htake by lia.
        rewrite Htake. by rewrite take_insert_ge.
      * rewrite (drop_S _ _ _ Hd'i). constructor.
        -- exists lnew. split; [done | apply is_fresh].
        -- eapply Forall_impl; [exact Hdrop|].
           intros kv (l' & Hkv & Hnin). exists l'. split; [done|].
           intros Hin. by apply Hnin, Hdom.
Qed.

(** What [extract_filtered_values] does to a dictionary of feature vectors:
    the values that are not diagnostics come back, vector by vector in the
    order of the dictionary; the dictionary behind the reference now holds
    the filtered vectors under the same keys; every other object of the
    store is as it was. *)
Lemma extract_filtered_values_spec (h : heap) (l : loc)
    (c : list (string * dict)) :
  dict_at h l c → NoDup c.*1 →
  ∃ h' d',
    extract_filtered_values l h
    = Ok (concat ((λ kfv, predictors_of kfv.2) <$> c), h')
    ∧ h' !! l = Some d'
    ∧ Forall2 (slot_holds h' l) d'
        ((λ kfv, (kfv.1, without_diagnostics kfv.2)) <$> c)
    ∧ (∀ l', l' ≠ l → l' ∈ dom h → h' !! l' = h !! l')
    ∧ Forall (λ kv, ∃ l', kv.2 = VRef l' ∧ l' ∉ dom h) d'.
Proof.
  intros (d & Hl & Hall) Hnd.
  destruct (filter_loop l c [] h d Hl Hall Hnd)
    as (h' & d' & Hrun & Hl' & Hall' & Hframe & _ & Hfresh).
  cbn [app length drop] in Hall', Hfresh.
  exists h', d'. split_and!; [| done | done | done | done].
  unfold extract_filtered_values. unfold bind at 1. unfold load at 1.
  rewrite Hl. rewrite (slot_holds_keys _ _ _ _ Hall).
  unfold bind at 1. rewrite Hrun.
  unfold bind at 1. unfold load at 1. rewrite Hl'.
  unfold bind at 1. rewrite (read_values _ _ _ _ Hall').
  unfold ret. do 2 f_equal. rewrite <- list_fmap_compose. done.
Qed.

(** ** Filtering and flattening *)

Lemma prefix_spec (sub s : string) :
  String.prefix sub s = true ↔ ∃ post, s = sub +:+ post.
Proof.
  revert s. induction sub as [|a sub IH]; intros [|b s]; cbn [String.prefix].
  - split; [by exists "" | done].
  - split; [by exists (String b s) | done].
  - split; [done | by intros [post Hpost]].
  - destruct (Ascii.ascii_dec a b) as [->|Hab].
    + rewrite IH. split; intros [post Hpost]; exists post.
      * cbn. by rewrite Hpost.
      * cbn in Hpost. by injection Hpost.
    + split; [done|]. intros [post Hpost]. cbn in Hpost.
      injection Hpost as Hba _. by destruct Hab.
Qed.

(** Python's [sub in s] is the substring relation. *)
Lemma contains_spec (sub s : string) :
  py.contains sub s = true ↔ substring_of sub s.
Proof.
  unfold substring_of. induction s as [|a s IH]; cbn [py.contains].
  - rewrite orb_false_r, prefix_spec. split.
    + intros [post Hpost]. by exists "", post.
    + intros ([|b pre] & post & Hs); [by exists post | done].
  - rewrite orb_true_iff, prefix_spec, IH. split.
    + intros [[post Hpost] | (pre & post & Hs)].
      * by exists "", post.
      * exists (String a pre), post. cbn. by rewrite Hs.
    + intros ([|b pre] & post & Hs).
      * left. by exists post.
      * right. cbn in Hs. injection Hs as -> Hs. by exists pre, post.
Qed.

Lemma without_diagnostics_elem (fv : dict) (name : string) (v : value) :
  (name, v) ∈ without_diagnostics fv
  ↔ (name, v) ∈ fv ∧ ¬ substring_of "diagnostics" name.
Proof.
  unfold without_diagnostics. rewrite list_elem_of_filter. cbn [fst].
  rewrite <- contains_spec, not_true_iff_false. tauto.
Qed.

Lemma dict_at_unique (h : heap) (l : loc) (c1 c2 : list (string * dict)) :
  dict_at h l c1 → dict_at h l c2 → c1 = c2.
Proof.
  intros (d1 & Hl1 & H1) (d2 & Hl2 & H2).
  assert (d2 = d1) as -> by congruence. clear Hl1 Hl2.
  revert c2 H2. induction H1 as [|kv [k1 fv1] d c1 Hs1 _ IH]; intros c2 H2.
  - by apply Forall2_nil_inv_l in H2.
  - apply Forall2_cons_inv_l in H2 as ([k2 fv2] & c2' & Hs2 & H2 & ->).
    rewrite (IH _ H2).
    destruct Hs1 as (Hk1 & l1 & Hv1 & _ & Hl1).
    destruct Hs2 as (Hk2 & l2 & Hv2 & _ & Hl2).
    cbn in *. do 2 f_equal; congruence.
Qed.

(** C6. The flattening keeps, of every feature vector, exactly the entries
    whose name does not contain "diagnostics" (wherever in the name, with
    this very capitalisation), in their order and with their values. *)
Theorem diagnostics_excluded (h : heap) (l : loc) (c : list (string * dict)) :
  dict_at h l c → NoDup c.*1 →
  (∃ h', extract_filtered_values l h
         = Ok (concat ((λ kfv, (without_diagnostics kfv.2).*2) <$> c), h'))
  ∧ ∀ fv : dict,
      without_diagnostics fv `sublist_of` fv
      ∧ ∀ name v, (name, v) ∈ without_diagnostics fv
                  ↔ (name, v) ∈ fv ∧ ¬ substring_of "diagnostics" name.
Proof.
  intros Hat Hnd. split.
  - destruct (extract_filtered_values_spec h l c Hat Hnd) as (h' & d' & Hrun & _).
    by exists h'.
  - intros fv. split; [apply sublist_filter | apply without_diagnostics_elem].
Qed.

Lemma sample_store_holds : dict_at sample_store 0%nat sample_contents.
Proof.
  eexists. split; [reflexivity|].
  constructor; [|constructor; [|constructor]];
    (split; [reflexivity|]); eexists;
    (split; [reflexivity | split; [lia | reflexivity]]).
Qed.

Lemma diagnostics_excluded_witness :
  (∃ h', extract_filtered_values 0%nat sample_store
         = Ok (concat ((λ kfv, (without_diagnostics kfv.2).*2)
                         <$> sample_contents), h'))
  ∧ ∀ fv : dict,
      without_diagnostics fv `sublist_of` fv
      ∧ ∀ name v, (name, v) ∈ without_diagnostics fv
                  ↔ (name, v) ∈ fv ∧ ¬ substring_of "diagnostics" name.
Proof.
  apply (diagnostics_excluded sample_store 0%nat sample_contents).
  - apply sample_store_holds.
  - apply (bool_decide_unpack _). vm_compute. exact I.
Defined.

Example sample_store_flattened :
  match extract_filtered_values 0%nat sample_store with
  | Ok (values_array, _) =>
      values_array = [VFloat 5; VFloat 7; VFloat 1]
  | Raise _ => False
  end.
Proof. vm_compute. done. Qed.

(** C10. [extract_filtered_values] mutates the dictionary it is given: when
    it returns, the dictionary behind the caller's reference has the same
    keys in the same order, each slot refers to a new vector that is the
    old one without its diagnostic entries, and no other object of the
    store has changed.  What the caller holds is not what it passed: the
    slots of a dictionary that is not empty refer to new objects, and the
    contents differ as soon as one vector had a diagnostic entry. *)
Theorem filtering_mutates_argument (h : heap) (l : loc)
    (c : list (string * dict)) :
  dict_at h l c → NoDup c.*1 →
  ∃ values_array h',
    extract_filtered_values l h = Ok (values_array, h')
    ∧ dict_at h' l ((λ kfv, (kfv.1, without_diagnostics kfv.2)) <$> c)
    ∧ (∀ l', l' ≠ l → l' ∈ dom h → h' !! l' = h !! l')
    ∧ (c ≠ [] → h' !! l ≠ h !! l)
    ∧ ((∃ kfv name v, kfv ∈ c ∧ (name, v) ∈ kfv.2
                      ∧ substring_of "diagnostics" name) →
       ¬ dict_at h' l c).
Proof.
  intros Hat Hnd.
  destruct (extract_filtered_values_spec h l c Hat Hnd)
    as (h' & d' & Hrun & Hl' & Hall' & Hframe & Hfresh).
  eexists _, h'. split_and!; [exact Hrun | by exists d' | done | |].
  - intros Hc Heq. destruct Hat as (d & Hl & Hall).
    assert (d' = d) as -> by congruence.
    destruct Hall as [|kv kfv d c (_ & l0 & Hv & _ & Hl0) _]; [done|].
    apply Forall_cons in Hfresh as [(l1 & Hv1 & Hnin) _].
    apply Hnin. assert (l1 = l0) as -> by congruence.
    by eapply elem_of_dom_2.
  - intros (kfv & name & v & Hin & Hnv & Hsub) Hat'.
    assert (Heq : (λ kfv, (kfv.1, without_diagnostics kfv.2)) <$> c = c).
    { eapply dict_at_unique; [by exists d' | exact Hat']. }
    apply list_elem_of_lookup in Hin as [i Hi].
    apply (f_equal (λ c, c !! i)) in Heq.
    rewrite list_lookup_fmap, Hi in Heq. cbn in Heq.
    injection Heq as Heq. destruct kfv as [k fv]. cbn in *.
    injection Heq as Heq. rewrite <- Heq in Hnv.
    apply without_diagnostics_elem in Hnv as [_ Hno]. done.
Qed.

Lemma filtering_mutates_argument_witness :
  ∃ values_array h',
    extract_filtered_values 0%nat sample_store = Ok (values_array, h')
    ∧ dict_at h' 0%nat
        ((λ kfv, (kfv.1, without_diagnostics kfv.2)) <$> sample_contents)
    ∧ (∀ l', l' ≠ 0%nat → l' ∈ dom sample_store →
             h' !! l' = sample_store !! l')
    ∧ (sample_contents ≠ [] → h' !! 0%nat ≠ sample_store !! 0%nat)
    ∧ ((∃ kfv name v, kfv ∈ sample_contents ∧ (name, v) ∈ kfv.2
                      ∧ substring_of "diagnostics" name) →
       ¬ dict_at h' 0%nat sample_contents).
Proof.
  apply (filtering_mutates_argument sample_store 0%nat sample_contents).
  - apply sample_store_holds.
  - apply (bool_decide_unpack _). vm_compute. exact I.
Defined.

Example sample_store_mutated :
  match extract_filtered_values 0%nat sample_store with
  | Ok (_, h') =>
      h' !! 0%nat
      = Some [("wholeprostate_firstorder", VRef 3); ("apex_shape", VRef 4)]
      ∧ h' !! 3%nat = Some [("original_firstorder_Mean", VFloat 5)]
      ∧ h' !! 4%nat = Some [("original_shape_Volume", VFloat 7);
                            ("Diagnostics_note", VFloat 1)]
      ∧ h' !! 1%nat = sample_store !! 1%nat
  | Raise _ => False
  end.
Proof. vm_compute. done. Qed.

(** ** Feature vector assembler *)

Lemma rmapM_length {A B} (f : A → result B) (xs : list A) (ys : list B) :
  rmapM f xs = Ok ys → length ys = length xs.
Proof.
  revert ys. induction xs as [|x xs IH]; intros ys; cbn [rmapM].
  - by intros [= <-].
  - destruct (f x) as [y|e]; cbn [rbind]; [|done].
    destruct (rmapM f xs) as [ys'|e]; cbn [rbind]; [|done].
    intros [= <-]. cbn. by rewrite (IH ys').
Qed.

Lemma rmapM_names (fv raw : dict) :
  rmapM (λ kv, let? x := float_if_ndarray kv.2 in Ok (kv.1, x))%result raw
  = Ok fv → fv.*1 = raw.*1.
Proof.
  revert fv. induction raw as [|[k v] raw IH]; intros fv; cbn [rmapM].
  - by intros [= <-].
  - destruct (float_if_ndarray (k, v).2) as [x|e]; cbn [rbind]; [|done].
    destruct (rmapM _ raw) as [fv'|e]; cbn [rbind]; [|done].
    intros [= <-]. cbn. by rewrite (IH fv').
Qed.

(** [extract_features] puts the feature vector in the store as a new
    object, or raises what the settings calculation, the extractor or the
    conversion raises. *)
Lemma extract_features_run `{FeatureExtractor}
    (image : Image Q) (m : Image Z) (fc : string) (h : heap) :
  extract_features image m fc h
  = match feature_vector_of image m fc with
    | Ok fv => Ok (fresh (dom h), <[fresh (dom h) := fv]> h)
    | Raise e => Raise e
    end.
Proof.
  unfold extract_features, feature_vector_of, sitk.GetArrayFromImage.
  unfold bind at 1. unfold lift at 1.
  destruct (get_settings (pixels image) (pixels m) 64) as [st|e];
    cbn [rbind]; [|done].
  unfold bind at 1. unfold lift at 1.
  destruct (execute st image m fc) as [raw|e]; cbn [rbind]; [|done].
  unfold bind at 1. unfold lift at 1.
  by destruct (rmapM _ raw) as [fv|e].
Qed.

Lemma dict_at_append (h : heap) (l : loc) (c : list (string * dict)) d
    (key : string) (fv : dict) :
  h !! l = Some d → Forall2 (slot_holds h l) d c → key ∉ c.*1 →
  let lnew := fresh (dom h) in
  dict_at (<[l := Dict.setitem d key (VRef lnew)]> (<[lnew := fv]> h)) l
          (c ++ [(key, fv)]).
Proof.
  intros Hl Hall Hkey lnew.
  assert (Hlnew : lnew ≠ l) by (apply fresh_not_in; by eapply elem_of_dom_2).
  rewrite setitem_new by by rewrite (slot_holds_keys _ _ _ _ Hall).
  eexists. split; [by rewrite lookup_insert_eq|].
  apply Forall2_app.
  - eapply Forall2_impl; [exact Hall|]. intros kv kfv.
    apply slot_holds_mono. intros l' Hl' Hdom.
    rewrite lookup_insert_ne by done.
    rewrite lookup_insert_ne; [done | by apply fresh_not_in].
  - constructor; [|constructor]. split; [done|].
    exists lnew. split_and!; [done | done |].
    rewrite lookup_insert_ne by done. by rewrite lookup_insert_eq.
Qed.

Lemma for_cons {A} (x : A) (xs : list A) (body : A → M unit) (h : heap) :
  for_ (x :: xs) body h
  = match body x h with
    | Ok (_, h') => for_ xs body h'
    | Raise e => Raise e
    end.
Proof. reflexivity. Qed.

Local Open Scope M_scope.

(** The body of the inner loop of [extract_radiomics_features]. *)
Local Abbreviation inner_body E image new_mask region_class feature_vectors :=
  (λ feature_class,
     let! feature_vector :=
       @extract_features E image new_mask feature_class in
     let! d := load feature_vectors in
     store feature_vectors
           (Dict.setitem d (region_class +:+ "_" +:+ feature_class)
                         (VRef feature_vector)))
  (only parsing).

Lemma inner_turn `{E : FeatureExtractor} (image : Image Q) (new_mask : Image Z)
    (region_class : string) (l : loc) (fc : string) (h : heap) d :
  h !! l = Some d →
  inner_body E image new_mask region_class l fc h
  = match feature_vector_of image new_mask fc with
    | Ok fv =>
        Ok (tt, <[l := Dict.setitem d (region_class +:+ "_" +:+ fc)
                         (VRef (fresh (dom h)))]>
                  (<[fresh (dom h) := fv]> h))
    | Raise e => Raise e
    end.
Proof.
  intros Hl. unfold bind at 1. rewrite extract_features_run.
  destruct (feature_vector_of image new_mask fc) as [fv|e]; [|done].
  unfold bind, load, store.
  rewrite lookup_insert_ne by (apply fresh_not_in; by eapply elem_of_dom_2).
  by rewrite Hl.
Qed.

(** The inner loop: one new entry for every feature class, in order, after
    the entries that are there. *)
Lemma inner_loop `{E : FeatureExtractor} (image : Image Q) (new_mask : Image Z)
    (region_class : string) (l : loc) (fcs : list string) :
  ∀ (h : heap) (c : list (string * dict)),
  dict_at h l c →
  NoDup (c.*1 ++ ((λ fc, region_class +:+ "_" +:+ fc) <$> fcs)) →
  match rmapM (feature_vector_of image new_mask) fcs with
  | Ok fvs =>
      ∃ h',
        for_ fcs (inner_body E image new_mask region_class l) h = Ok (tt, h')
        ∧ dict_at h' l
            (c ++ zip ((λ fc, region_class +:+ "_" +:+ fc) <$> fcs) fvs)
  | Raise e =>
      for_ fcs (inner_body E image new_mask region_class l) h = Raise e
  end.
Proof.
  induction fcs as [|fc fcs IH]; intros h c Hat Hnd.
  - cbn. exists h. by rewrite app_nil_r.
  - destruct Hat as (d & Hl & Hall).
    cbn [rmapM fmap list_fmap]. rewrite for_cons.
    rewrite (inner_turn image new_mask region_class l fc h d Hl).
    destruct (feature_vector_of image new_mask fc) as [fv|e];
      cbn [rbind]; [|done].
    cbn [fmap list_fmap] in Hnd.
    assert (Hkey : region_class +:+ "_" +:+ fc ∉ c.*1).
    { apply NoDup_app in Hnd as (_ & Hdisj & _). intros Hin.
      apply (Hdisj _ Hin). by left. }
    pose proof (dict_at_append h l c d _ fv Hl Hall Hkey) as Hat'.
    cbn zeta in Hat'.
    specialize (IH _ _ Hat').
    rewrite fmap_app, <- app_assoc in IH. specialize (IH Hnd).
    destruct (rmapM (feature_vector_of image new_mask) fcs) as [fvs|e];
      cbn [rbind]; [|done].
    destruct IH as (h' & Hrun & Hat''). exists h'. split; [done|].
    by rewrite <- app_assoc in Hat''.
Qed.

(** The body of the outer loop. *)
Local Abbreviation outer_body E image mask feature_classes feature_vectors :=
  (λ region_class,
     let! new_mask_array :=
       lift (region_array (binary_array (prepare_mask image mask))
               (slice_indices region_class
                  (nonzero_slices (binary_array (prepare_mask image mask))))) in
     let! new_mask :=
       lift (region_mask (prepare_mask image mask) new_mask_array) in
     for_ feature_classes
          (inner_body E image new_mask region_class feature_vectors))
  (only parsing).

Lemma outer_turn `{E : FeatureExtractor} (image : Image Q) (mask : Image Z)
    (fcs : list string) (l : loc) (r : string) (h : heap) :
  outer_body E image mask fcs l r h
  = match new_mask_of image mask r with
    | Ok new_mask => for_ fcs (inner_body E image new_mask r l) h
    | Raise e => Raise e
    end.
Proof.
  unfold new_mask_of. cbn zeta. unfold bind at 1. unfold lift at 1.
  destruct (region_array _ _) as [arr|e]; cbn [rbind]; [|done].
  unfold bind at 1. unfold lift at 1.
  by destruct (region_mask _ arr) as [nm|e].
Qed.

Lemma keys_of_cons (r : string) (rcs fcs : list string) :
  keys_of (r :: rcs) fcs
  = ((λ fc, r +:+ "_" +:+ fc) <$> fcs) ++ keys_of rcs fcs.
Proof. reflexivity. Qed.

(** The two loops: one entry for every region class and feature class, in
    the order of the loops, as long as the keys are distinct. *)
Lemma outer_loop `{E : FeatureExtractor} (image : Image Q) (mask : Image Z)
    (fcs : list string) (l : loc) (rcs : list string) :
  ∀ (h : heap) (c : list (string * dict)),
  dict_at h l c →
  NoDup (c.*1 ++ keys_of rcs fcs) →
  match feature_vectors_of image mask rcs fcs with
  | Ok fvss =>
      ∃ h',
        for_ rcs (outer_body E image mask fcs l) h = Ok (tt, h')
        ∧ dict_at h' l (c ++ zip (keys_of rcs fcs) (concat fvss))
  | Raise e => for_ rcs (outer_body E image mask fcs l) h = Raise e
  end.
Proof.
  induction rcs as [|r rcs IH]; intros h c Hat Hnd.
  - cbn. exists h. by rewrite app_nil_r.
  - unfold feature_vectors_of in *. cbn [rmapM]. rewrite for_cons.
    rewrite (outer_turn image mask fcs l r h).
    destruct (new_mask_of image mask r) as [nm|e]; cbn [rbind]; [|done].
    rewrite keys_of_cons, app_assoc in Hnd.
    pose proof (inner_loop image nm r l fcs h c Hat) as Hin.
    destruct (NoDup_app (c.*1 ++ ((λ fc, r +:+ "_" +:+ fc) <$> fcs))
                (keys_of rcs fcs)) as [Hsplit _].
    destruct (Hsplit Hnd) as (Hnd1 & _ & _). specialize (Hin Hnd1).
    destruct (rmapM (feature_vector_of image nm) fcs) as [fvs|e] eqn:Hfvs;
      cbn [rbind]; [|by rewrite Hin].
    destruct Hin as (h1 & Hrun1 & Hat1). rewrite Hrun1.
    pose proof (rmapM_length _ _ _ Hfvs) as Hlen.
    specialize (IH h1 _ Hat1).
    rewrite fmap_app, fst_zip in IH by (rewrite length_fmap; lia).
    specialize (IH Hnd).
    destruct (rmapM _ rcs) as [fvss|e]; cbn [rbind]; [|done].
    destruct IH as (h' & Hrun & Hat'). exists h'. split; [done|].
    rewrite keys_of_cons. cbn [concat].
    rewrite zip_with_app by (rewrite length_fmap; lia).
    by rewrite <- app_assoc in Hat'.
Qed.

Lemma feature_vectors_of_length `{E : FeatureExtractor}
    (image : Image Q) (mask : Image Z) (rcs fcs : list string) fvss :
  feature_vectors_of image mask rcs fcs = Ok fvss →
  length (concat fvss) = length (keys_of rcs fcs).
Proof.
  unfold feature_vectors_of. revert fvss.
  induction rcs as [|r rcs IH]; intros fvss; cbn [rmapM].
  - by intros [= <-].
  - destruct (new_mask_of image mask r) as [nm|e]; cbn [rbind]; [|done].
    destruct (rmapM (feature_vector_of image nm) fcs) as [fvs|e] eqn:Hfvs;
      cbn [rbind]; [|done].
    destruct (rmapM _ rcs) as [fvss'|e]; cbn [rbind]; [|done].
    intros [= <-]. rewrite keys_of_cons. cbn [concat].
    rewrite !length_app, length_fmap, (IH fvss') by done.
    by rewrite (rmapM_length _ _ _ Hfvs).
Qed.

(** [extract_radiomics_features] returns a new dictionary with one feature
    vector for every key of the two loops, in the order of the loops, or
    raises what the first failing step raises. *)
Lemma extract_radiomics_features_spec `{E : FeatureExtractor}
    (image : Image Q) (mask : Image Z) (rcs fcs : list string) (h : heap) :
  NoDup (keys_of rcs fcs) →
  match feature_vectors_of image mask rcs fcs with
  | Ok fvss =>
      ∃ l h',
        extract_radiomics_features image mask rcs fcs h = Ok (l, h')
        ∧ dict_at h' l (zip (keys_of rcs fcs) (concat fvss))
  | Raise e => extract_radiomics_features image mask rcs fcs h = Raise e
  end.
Proof.
  intros Hnd.
  set (l := fresh (dom h)). set (h0 := <[l := []]> h).
  assert (Heq : extract_radiomics_features image mask rcs fcs h
                = match for_ rcs (outer_body E image mask fcs l) h0 with
                  | Ok (_, h') => Ok (l, h')
                  | Raise e => Raise e
                  end) by reflexivity.
  rewrite Heq. clear Heq.
  assert (Hat : dict_at h0 l []).
  { exists []. split; [apply lookup_insert_eq | constructor]. }
  pose proof (outer_loop image mask fcs l rcs h0 [] Hat Hnd) as Hloop.
  destruct (feature_vectors_of image mask rcs fcs) as [fvss|e].
  - destruct Hloop as (h' & Hrun & Hat').
    exists l, h'. split; [by rewrite Hrun | exact Hat'].
  - by rewrite Hloop.
Qed.

Lemma keys_NoDup : NoDup (keys_of region_classes feature_classes).
Proof. apply (bool_decide_unpack _). vm_compute. exact I. Qed.

(** [feature_extraction] as a whole: the predictors are the values of the
    feature vectors that are not diagnostics, vector after vector in the
    order of the two loops. *)
Lemma feature_extraction_run `{E : FeatureExtractor}
    (image : Image Q) (mask : Image Z) (h : heap) :
  match feature_vectors_of image mask region_classes feature_classes with
  | Ok fvss =>
      ∃ h', feature_extraction image mask h
            = Ok (concat (predictors_of <$> concat fvss), h')
  | Raise e => feature_extraction image mask h = Raise e
  end.
Proof.
  pose proof (extract_radiomics_features_spec image mask region_classes
                feature_classes h keys_NoDup) as Hbuild.
  pose proof (feature_vectors_of_length image mask region_classes
                feature_classes) as Hlen.
  unfold feature_extraction.
  destruct (feature_vectors_of image mask region_classes feature_classes)
    as [fvss|e].
  - destruct Hbuild as (l & h1 & Hrun & Hat). specialize (Hlen fvss eq_refl).
    destruct (extract_filtered_values_spec h1 l _ Hat) as (h' & d' & Hflat & _).
    { rewrite fst_zip by lia. apply keys_NoDup. }
    exists h'. unfold bind at 1. rewrite Hrun. unfold bind at 1.
    rewrite Hflat. unfold ret. do 3 f_equal.
    rewrite <- (snd_zip (keys_of region_classes feature_classes)
                  (concat fvss)) at 2 by lia.
    by rewrite <- list_fmap_compose.
  - unfold bind at 1. by rewrite Hbuild.
Qed.

(** C3. The predictor vector is assembled over exactly 21 keys, the three
    regions outermost and the seven feature classes innermost, in this
    order; the dictionary of feature vectors has these keys in this order,
    and the predictors are the retained values of the vectors in the same
    order, each vector in the order the extractor gave its entries. *)
Theorem predictor_vector_order `{E : FeatureExtractor}
    (image : Image Q) (mask : Image Z) (h : heap) :
  keys_of region_classes feature_classes
  = ["wholeprostate_firstorder"; "wholeprostate_shape"; "wholeprostate_glcm";
     "wholeprostate_glrlm"; "wholeprostate_glszm"; "wholeprostate_ngtdm";
     "wholeprostate_gldm";
     "apex_firstorder"; "apex_shape"; "apex_glcm"; "apex_glrlm";
     "apex_glszm"; "apex_ngtdm"; "apex_gldm";
     "base_firstorder"; "base_shape"; "base_glcm"; "base_glrlm";
     "base_glszm"; "base_ngtdm"; "base_gldm"]
  ∧ match feature_vectors_of image mask region_classes feature_classes with
    | Ok fvss =>
        length (concat fvss) = 21%nat
        ∧ (∃ l h1,
             extract_radiomics_features image mask region_classes
               feature_classes h = Ok (l, h1)
             ∧ dict_at h1 l
                 (zip (keys_of region_classes feature_classes) (concat fvss)))
        ∧ ∃ h', feature_extraction image mask h
                = Ok (concat (predictors_of <$> concat fvss), h')
    | Raise e => feature_extraction image mask h = Raise e
    end
  ∧ ∀ new_mask feature_class fv,
      feature_vector_of image new_mask feature_class = Ok fv →
      ∃ settings raw,
        execute settings image new_mask feature_class = Ok raw
        ∧ fv.*1 = raw.*1.
Proof.
  split_and!.
  - reflexivity.
  - pose proof (extract_radiomics_features_spec image mask region_classes
                  feature_classes h keys_NoDup) as Hbuild.
    pose proof (feature_vectors_of_length image mask region_classes
                  feature_classes) as Hlen.
    pose proof (feature_extraction_run image mask h) as Hrun.
    destruct (feature_vectors_of image mask region_classes feature_classes)
      as [fvss|e]; [|done].
    split_and!; [by rewrite (Hlen fvss eq_refl) | done | done].
  - intros nm fc fv. unfold feature_vector_of.
    destruct (get_settings (pixels image) (pixels nm) 64) as [st|e];
      cbn [rbind]; [|done].
    destruct (execute st image nm fc) as [raw|e] eqn:Hraw; cbn [rbind]; [|done].
    intros Hfv. exists st, raw. split; [done | by apply rmapM_names].
Qed.

Lemma predictor_vector_order_witness :
  ∃ settings raw,
    @execute sample_extractor settings sample_image sample_mask "glcm" = Ok raw
    ∧ ["diagnostics_Versions_PyRadiomics"; "original_glcm_BinWidth";
       "original_glcm_VoxelNum"; "original_glcm_Spacing"] = raw.*1.
Proof.
  destruct (@predictor_vector_order sample_extractor sample_image sample_mask ∅)
    as (_ & _ & Hnames).
  apply (Hnames sample_mask "glcm"
           [("diagnostics_Versions_PyRadiomics", VStr "v3");
            ("original_glcm_BinWidth", VFloat (30 # 64));
            ("original_glcm_VoxelNum", VFloat 4);
            ("original_glcm_Spacing", VFloat 2)]).
  reflexivity.
Defined.

Example sample_predictors :
  match @feature_extraction sample_extractor sample_image sample_mask ∅ with
  | Ok (features_values, _) =>
      length features_values = 63%nat
      ∧ take 6 features_values
        = [VFloat (30 # 64); VFloat 4; VFloat 2;
           VFloat (30 # 64); VFloat 4; VFloat 2]
      ∧ take 3 (drop 21 features_values)
        = [VFloat (0 # 64); VFloat 1; VFloat 2]
  | Raise _ => False
  end.
Proof. vm_compute. done. Qed.

(** ** Geometry of the masks handed to the extractor *)

Lemma for_ext {A} (xs : list A) (f g : A → M unit) :
  (∀ x h, x ∈ xs → f x h = g x h) → ∀ h, for_ xs f h = for_ xs g h.
Proof.
  induction xs as [|x xs IH]; intros Hfg h; [done|].
  rewrite !for_cons, Hfg by by left.
  destruct (g x h) as [[[] h']|e]; [|done].
  apply IH. intros y h'' Hy. apply Hfg. by right.
Qed.

Lemma new_mask_of_geometry (image : Image Q) (mask : Image Z) (r : string)
    (new_mask : Image Z) :
  new_mask_of image mask r = Ok new_mask →
  geometry_is (spacing mask) (origin image) (direction image) new_mask.
Proof.
  destruct (new_mask_of_spec image mask r) as (arr & _ & Hnew & _).
  rewrite Hnew. by intros [= <-].
Qed.

Lemma feature_vector_of_checking (accepts : Image Z → Prop)
    `{∀ m, Decision (accepts m)} (E : FeatureExtractor)
    (image : Image Q) (new_mask : Image Z) (fc : string) :
  accepts new_mask →
  @feature_vector_of (checking accepts E) image new_mask fc
  = @feature_vector_of E image new_mask fc.
Proof.
  intros Hacc. unfold feature_vector_of.
  destruct (get_settings (pixels image) (pixels new_mask) 64) as [st|e];
    cbn [rbind]; [|done].
  unfold execute at 1, checking. by rewrite decide_True.
Qed.

(** C9, as the code has it.  Before any region mask is built, the origin
    and the direction of the mask are set to those of the image, and its
    spacing stays its own; every region mask has this geometry, and every
    call to the extractor is made with such a mask: an extractor that
    refuses any other mask changes nothing. *)
Theorem mask_geometry_at_extraction (E : FeatureExtractor)
    (image : Image Q) (mask : Image Z) (rcs fcs : list string) (h : heap) :
  geometry_is (spacing mask) (origin image) (direction image)
              (prepare_mask image mask)
  ∧ (∀ r new_mask, new_mask_of image mask r = Ok new_mask →
       geometry_is (spacing mask) (origin image) (direction image) new_mask)
  ∧ @extract_radiomics_features
      (checking (geometry_is (spacing mask) (origin image) (direction image)) E)
      image mask rcs fcs h
    = @extract_radiomics_features E image mask rcs fcs h.
Proof.
  split_and!; [done | apply new_mask_of_geometry |].
  set (G := geometry_is (spacing mask) (origin image) (direction image)).
  set (l := fresh (dom h)). set (h0 := <[l := []]> h).
  assert (Heq : ∀ E', @extract_radiomics_features E' image mask rcs fcs h
                = match for_ rcs (outer_body E' image mask fcs l) h0 with
                  | Ok (_, h') => Ok (l, h')
                  | Raise e => Raise e
                  end) by reflexivity.
  rewrite !Heq. clear Heq.
  rewrite (for_ext rcs _ (outer_body E image mask fcs l)); [done|].
  intros r h1 _. rewrite !outer_turn.
  destruct (new_mask_of image mask r) as [nm|e] eqn:Hnm; [|done].
  apply for_ext. intros fc h2 _. unfold bind at 1 3.
  rewrite !extract_features_run, feature_vector_of_checking; [done|].
  by eapply new_mask_of_geometry.
Qed.

Lemma mask_geometry_at_extraction_witness :
  geometry_is [2; 2; 2]%Q [0; 0; 0]%Q [1; 0; 0; 0; 1; 0; 0; 0; 1]%Q
    (mkImage [[[0; 0]]; [[0; 1]]; [[0; 0]]; [[0; 0]]; [[0; 0]]]
             [2; 2; 2]%Q [0; 0; 0]%Q [1; 0; 0; 0; 1; 0; 0; 0; 1]%Q).
Proof.
  destruct (mask_geometry_at_extraction sample_extractor sample_image
              sample_mask region_classes feature_classes ∅) as (_ & Hall & _).
  apply (Hall "apex"). reflexivity.
Defined.

(** C9 as stated fails: the spacing of the mask is not set to that of the
    image.  The region mask of the sample volumes keeps the spacing of the
    mask, and an extractor that refuses a mask whose geometry is not that
    of the image refuses it. *)
Lemma mask_spacing_not_forced :
  (∃ new_mask,
     new_mask_of sample_image sample_mask "wholeprostate" = Ok new_mask
     ∧ spacing new_mask = [2; 2; 2]%Q
     ∧ spacing sample_image = [1; 1; 1]%Q
     ∧ spacing new_mask ≠ spacing sample_image)
  ∧ @feature_extraction
      (checking (geometry_is (spacing sample_image) (origin sample_image)
                             (direction sample_image)) sample_extractor)
      sample_image sample_mask ∅
    = Raise (ExtractorError "mask refused").
Proof.
  split.
  - eexists. split; [vm_compute; reflexivity|]. by split_and!.
  - vm_compute. reflexivity.
Qed.

(** ** Masks with fewer than three nonzero slices *)

Lemma sum_zeros_like (a : array3 Z) : np.sum (np.zeros_like a) = 0.
Proof.
  unfold np.sum, np.zeros_like. rewrite ravel_map, total_zeros; [done|].
  apply Forall_forall. by intros v (? & -> & _)%list_elem_of_fmap.
Qed.

(** C8, as the code has it.  With fewer than three nonzero slices the apex
    is empty and the base is empty too: it starts at position [N - 0 = N]
    of the sequence.  Both region masks are all zero, and the settings
    calculation raises on them. *)
Theorem small_mask_regions (image : Image Q) (mask : Image Z) :
  (length (nonzero_slices_of image mask) < 3)%nat →
  slice_indices "apex" (nonzero_slices_of image mask) = []
  ∧ slice_indices "base" (nonzero_slices_of image mask) = []
  ∧ ∀ r, r = "apex" ∨ r = "base" →
      ∃ new_mask,
        new_mask_of image mask r = Ok new_mask
        ∧ pixels new_mask
          = np.zeros_like (binary_array (prepare_mask image mask))
        ∧ get_settings (pixels image) (pixels new_mask) 64
          = Raise (ValueError "Mask is empty. Cannot compute intensity range.").
Proof.
  unfold nonzero_slices_of.
  set (ns := nonzero_slices (binary_array (prepare_mask image mask))).
  intros Hlen.
  destruct (slice_indices_regions ns) as (_ & Hapex & Hbase).
  assert (Hdiv : (length ns / 3 = 0)%nat) by by apply Nat.div_small.
  rewrite Hdiv in Hapex, Hbase. rewrite take_0 in Hapex.
  rewrite Nat.sub_0_r, drop_all in Hbase.
  split_and!; [done | done |].
  intros r Hr.
  assert (Hidx : slice_indices r ns = []) by by destruct Hr as [-> | ->].
  destruct (new_mask_of_spec image mask r) as (arr & Harr & Hnew & _).
  cbn zeta in Harr. fold ns in Harr. rewrite Hidx in Harr.
  injection Harr as <-.
  eexists. split_and!; [exact Hnew | done |]. cbn [pixels].
  apply get_settings_empty_mask, sum_zeros_like.
Qed.

Lemma small_mask_regions_witness :
  slice_indices "apex" (nonzero_slices_of sample_image thin_mask) = []
  ∧ slice_indices "base" (nonzero_slices_of sample_image thin_mask) = [].
Proof.
  destruct (small_mask_regions sample_image thin_mask) as (Hapex & Hbase & _).
  - vm_compute. lia.
  - by split.
Defined.

(** C8 as stated fails: a mask with two nonzero slices, 0 and 1, has an
    empty base, which includes neither of them. *)
Lemma small_mask_base_is_empty :
  nonzero_slices_of sample_image thin_mask = [0; 1]%nat
  ∧ (length (nonzero_slices_of sample_image thin_mask) < 3)%nat
  ∧ slice_indices "base" (nonzero_slices_of sample_image thin_mask) = []
  ∧ ¬ (∀ i, i ∈ nonzero_slices_of sample_image thin_mask →
            i ∈ slice_indices "base" (nonzero_slices_of sample_image thin_mask)).
Proof.
  split_and!; [reflexivity | vm_compute; lia | reflexivity |].
  intros Hall. specialize (Hall 0%nat).
  change (nonzero_slices_of sample_image thin_mask) with [0; 1]%nat in Hall.
  change (slice_indices "base" [0; 1]%nat) with (@nil nat) in Hall.
  assert (Hin : 0%nat ∈ [0; 1]%nat) by by left.
  apply Hall in Hin. by apply elem_of_nil in Hin.
Qed.

Example thin_mask_run :
  @feature_extraction sample_extractor sample_image thin_mask ∅
  = Raise (ValueError "Mask is empty. Cannot compute intensity range.").
Proof. vm_compute. reflexivity. Qed.

(* ================================================================= *)
(** * Further properties *)

(** ** A single slice of a mask *)

Lemma index_in_range (len : nat) (i : Z) :
  - Z.of_nat len ≤ i < Z.of_nat len →
  np.index len i = Ok (Z.to_nat (i mod Z.of_nat len))
  ∧ (Z.to_nat (i mod Z.of_nat len) < len)%nat.
Proof.
  intros Hi. unfold np.index.
  replace (i <? - Z.of_nat len) with false by (symmetry; lia).
  replace (Z.of_nat len <=? i) with false by (symmetry; lia).
  cbn [orb]. destruct (Z.ltb_spec i 0) as [Hneg|Hpos].
  - assert (Hmod : i mod Z.of_nat len = i + Z.of_nat len).
    { symmetry. apply (Z.mod_unique _ _ (-1)); lia. }
    rewrite Hmod. split; [done | lia].
  - rewrite Z.mod_small by lia. split; [done | lia].
Qed.

Lemma index_out_of_range (len : nat) (i : Z) :
  i < - Z.of_nat len ∨ Z.of_nat len ≤ i →
  np.index len i = Raise (IndexError "index is out of bounds for axis 0").
Proof.
  intros Hi. unfold np.index.
  destruct (Z.ltb_spec i (- Z.of_nat len)); [done|].
  destruct (Z.leb_spec (Z.of_nat len) i); [done | lia].
Qed.

Lemma fill_zeros_like (a : array3 Z) :
  np.fill (np.zeros_like a) 0 = np.zeros_like a.
Proof.
  unfold np.fill, np.zeros_like. rewrite <- list_fmap_compose.
  apply list_fmap_ext. intros _ s _. cbn. rewrite <- list_fmap_compose.
  apply list_fmap_ext. intros _ r _. cbn. by rewrite <- list_fmap_compose.
Qed.

Lemma zeros_like_extents (a : array3 Z) :
  np.extents (np.zeros_like a) = np.extents a.
Proof. apply extents_map. Qed.

Lemma map_zero_extents (s : list (list Z)) :
  map length (map (map (λ _, 0)) s) = map length s.
Proof.
  rewrite <- list_fmap_compose. apply list_fmap_ext.
  intros _ r _. cbn. by rewrite length_map.
Qed.

(** In range, [get_slice_from_mask] is the zero volume with the slice of
    the mask put at its place, with the metadata of the mask. *)
Lemma get_slice_from_mask_run (mask_in : Image Z) (i : Z) (k : nat)
    (s : list (list Z)) :
  np.index (length (pixels mask_in)) i = Ok k →
  pixels mask_in !! k = Some s →
  get_slice_from_mask mask_in i
  = Ok (mkImage (<[k := s]> (np.zeros_like (pixels mask_in)))
                (spacing mask_in) (origin mask_in) (direction mask_in)).
Proof.
  intros Hk Hs. unfold get_slice_from_mask, sitk.GetArrayFromImage.
  cbn zeta. rewrite fill_zeros_like.
  unfold np.getitem_int. rewrite Hk. cbn [rbind]. rewrite Hs. cbn [rbind].
  unfold np.setitem_int.
  replace (length (np.zeros_like (pixels mask_in)))
    with (length (pixels mask_in))
    by (unfold np.zeros_like; by rewrite length_map).
  rewrite Hk. cbn [rbind].
  unfold sitk.CopyInformation, sitk.GetImageFromArray. cbn [pixels].
  rewrite decide_True; [done|].
  apply extents_lookup.
  - rewrite length_insert. unfold np.zeros_like. by rewrite length_map.
  - intros j t t' Ht Ht'.
    destruct (decide (k = j)) as [->|Hne].
    + rewrite list_lookup_insert_eq in Ht; [congruence|].
      unfold np.zeros_like. rewrite length_map. by eapply lookup_lt_Some.
    + rewrite list_lookup_insert_ne in Ht by done.
      rewrite zeros_like_lookup, Ht' in Ht. cbn in Ht. injection Ht as <-.
      apply map_zero_extents.
Qed.

(** X1. For a slice number within [-n, n), where [n] is the number of
    slices, [get_slice_from_mask] returns a volume with the geometry and
    the size of the mask, in which the slice at that number (counted from
    the end when negative) is the slice of the mask and every other slice
    is zero. *)
Theorem get_slice_from_mask_spec (mask_in : Image Z) (i : Z) :
  - Z.of_nat (length (pixels mask_in)) ≤ i < Z.of_nat (length (pixels mask_in)) →
  ∃ new_mask,
    get_slice_from_mask mask_in i = Ok new_mask
    ∧ spacing new_mask = spacing mask_in
    ∧ origin new_mask = origin mask_in
    ∧ direction new_mask = direction mask_in
    ∧ np.extents (pixels new_mask) = np.extents (pixels mask_in)
    ∧ ∀ j s, pixels mask_in !! j = Some s →
        pixels new_mask !! j
        = Some (if decide
                     (j = Z.to_nat (i mod Z.of_nat (length (pixels mask_in))))
                then s else map (map (λ _, 0)) s).
Proof.
  intros Hi. destruct (index_in_range _ _ Hi) as [Hk Hlt].
  set (k := Z.to_nat (i mod Z.of_nat (length (pixels mask_in)))) in *.
  destruct (lookup_lt_is_Some_2 _ _ Hlt) as [s Hs].
  eexists. split; [exact (get_slice_from_mask_run _ _ _ _ Hk Hs)|].
  cbn [spacing origin direction pixels].
  assert (Hlook : ∀ j t, pixels mask_in !! j = Some t →
            <[k := s]> (np.zeros_like (pixels mask_in)) !! j
            = Some (if decide (j = k) then t else map (map (λ _, 0)) t)).
  { intros j t Ht. destruct (decide (j = k)) as [->|Hne].
    - rewrite list_lookup_insert_eq; [congruence|].
      unfold np.zeros_like. by rewrite length_map.
    - rewrite list_lookup_insert_ne by done.
      by rewrite zeros_like_lookup, Ht. }
  split_and!; [done | done | done | | exact Hlook].
  apply extents_lookup.
  - rewrite length_insert. unfold np.zeros_like. by rewrite length_map.
  - intros j t t' Ht Ht'. rewrite (Hlook j t' Ht') in Ht. injection Ht as <-.
    destruct (decide (j = k)); [done | apply map_zero_extents].
Qed.

Lemma get_slice_from_mask_spec_witness :
  get_slice_from_mask sample_mask (-3)
  = Ok (mkImage [[[0; 0]]; [[0; 0]]; [[1; 1]]; [[0; 0]]; [[0; 0]]]
                [2; 2; 2]%Q [5; 5; 5]%Q [0; 1; 0; 1; 0; 0; 0; 0; 1]%Q).
Proof.
  destruct (get_slice_from_mask_spec sample_mask (-3)) as (m & Hm & _).
  - cbn. lia.
  - reflexivity.
Defined.

(** X2. [get_slice_from_mask] raises [IndexError] exactly when the slice
    number is outside [-n, n); it never wraps such a number around and never
    returns an empty volume for it. *)
Theorem get_slice_from_mask_bounds (mask_in : Image Z) (i : Z) :
  get_slice_from_mask mask_in i
  = Raise (IndexError "index is out of bounds for axis 0")
  ↔ (i < - Z.of_nat (length (pixels mask_in))
     ∨ Z.of_nat (length (pixels mask_in)) ≤ i).
Proof.
  split.
  - intros Hraise.
    destruct (decide (- Z.of_nat (length (pixels mask_in)) ≤ i
                      < Z.of_nat (length (pixels mask_in)))) as [Hin|Hout];
      [|lia].
    destruct (index_in_range _ _ Hin) as [Hk Hlt].
    destruct (lookup_lt_is_Some_2 _ _ Hlt) as [s Hs].
    rewrite (get_slice_from_mask_run _ _ _ _ Hk Hs) in Hraise. done.
  - intros Hout. unfold get_slice_from_mask, np.getitem_int.
    cbn zeta. unfold sitk.GetArrayFromImage.
    by rewrite (index_out_of_range _ _ Hout).
Qed.

Lemma zeros_like_insert (a : array3 Z) (k : nat) (s : list (list Z)) :
  a !! k = Some s →
  np.zeros_like (<[k := s]> (np.zeros_like a)) = np.zeros_like a.
Proof.
  intros Hs. apply list_eq. intros j. rewrite !zeros_like_lookup.
  destruct (decide (k = j)) as [<-|Hne].
  - rewrite list_lookup_insert_eq
      by (unfold np.zeros_like; rewrite length_map; by eapply lookup_lt_Some).
    by rewrite Hs.
  - rewrite list_lookup_insert_ne by done. rewrite zeros_like_lookup.
    destruct (a !! j) as [t|]; [|done]. cbn. f_equal.
    rewrite <- list_fmap_compose. apply list_fmap_ext. intros _ r _. cbn.
    by rewrite <- list_fmap_compose.
Qed.

(** X3. Taking the same slice again from the result of
    [get_slice_from_mask] gives that result back, and taking any other
    slice from it gives the zero volume: the result holds the one slice and
    nothing else of the mask. *)
Theorem get_slice_from_mask_twice (mask_in : Image Z) (i j : Z) :
  - Z.of_nat (length (pixels mask_in)) ≤ i < Z.of_nat (length (pixels mask_in)) →
  - Z.of_nat (length (pixels mask_in)) ≤ j < Z.of_nat (length (pixels mask_in)) →
  ∃ first,
    get_slice_from_mask mask_in i = Ok first
    ∧ get_slice_from_mask first j
      = Ok (if decide (i mod Z.of_nat (length (pixels mask_in))
                       = j mod Z.of_nat (length (pixels mask_in)))
            then first
            else mkImage (np.zeros_like (pixels mask_in))
                         (spacing mask_in) (origin mask_in)
                         (direction mask_in)).
Proof.
  intros Hi Hj.
  destruct (index_in_range _ _ Hi) as [Hki Hlti].
  destruct (index_in_range _ _ Hj) as [Hkj Hltj].
  set (n := Z.of_nat (length (pixels mask_in))) in *.
  set (ki := Z.to_nat (i mod n)) in *. set (kj := Z.to_nat (j mod n)) in *.
  destruct (lookup_lt_is_Some_2 _ _ Hlti) as [s Hs].
  eexists. split; [exact (get_slice_from_mask_run _ _ _ _ Hki Hs)|].
  set (first := <[ki := s]> (np.zeros_like (pixels mask_in))).
  assert (Hlen : length first = length (pixels mask_in)).
  { unfold first. rewrite length_insert. unfold np.zeros_like.
    by rewrite length_map. }
  assert (Hfirst : ∀ k, first !! k
            = if decide (k = ki) then Some s
              else np.zeros_like (pixels mask_in) !! k).
  { intros k. unfold first. destruct (decide (k = ki)) as [->|Hne].
    - apply list_lookup_insert_eq. unfold np.zeros_like.
      by rewrite length_map.
    - by rewrite list_lookup_insert_ne. }
  assert (Hmod : i mod n = j mod n ↔ ki = kj).
  { unfold ki, kj. pose proof (Z.mod_pos_bound i n). pose proof (Z.mod_pos_bound j n).
    lia. }
  destruct (decide (i mod n = j mod n)) as [Heq|Hne].
  - apply Hmod in Heq.
    rewrite (get_slice_from_mask_run _ j kj s); cbn [pixels spacing origin direction].
    + fold first. rewrite <- Heq. f_equal. f_equal. unfold first.
      rewrite (zeros_like_insert _ _ _ Hs). done.
    + by rewrite Hlen.
    + rewrite Hfirst, <- Heq. by rewrite decide_True.
  - assert (Hk : ki ≠ kj) by (intros ?; by apply Hne, Hmod).
    destruct (lookup_lt_is_Some_2 (pixels mask_in) kj Hltj) as [t Ht].
    rewrite (get_slice_from_mask_run _ j kj (map (map (λ _, 0)) t));
      cbn [pixels spacing origin direction].
    + fold first. f_equal. f_equal. unfold first.
      rewrite (zeros_like_insert _ _ _ Hs).
      apply list_insert_id. by rewrite zeros_like_lookup, Ht.
    + by rewrite Hlen.
    + rewrite Hfirst, decide_False by done.
      by rewrite zeros_like_lookup, Ht.
Qed.

Lemma get_slice_from_mask_twice_witness :
  ∃ first,
    get_slice_from_mask sample_mask 2 = Ok first
    ∧ get_slice_from_mask first (-3)
      = Ok (if decide (2 mod Z.of_nat (length (pixels sample_mask))
                       = (-3) mod Z.of_nat (length (pixels sample_mask)))
            then first
            else mkImage (np.zeros_like (pixels sample_mask))
                         (spacing sample_mask) (origin sample_mask)
                         (direction sample_mask)).
Proof. apply (get_slice_from_mask_twice sample_mask 2 (-3)); cbn; lia. Defined.

(** ** Regions and their masks *)

(** X4. Whatever the mask, the apex and the base have the same number of
    slices, a third of the nonzero slices rounded down; every apex slice
    lies before every base slice, so the two never overlap; between them
    lie the [N - 2 * (N / 3)] slices that belong to neither. *)
Theorem apex_base_layout (image : Image Q) (mask : Image Z) :
  length (slice_indices "apex" (nonzero_slices_of image mask))
  = (length (nonzero_slices_of image mask) / 3)%nat
  ∧ length (slice_indices "base" (nonzero_slices_of image mask))
    = (length (nonzero_slices_of image mask) / 3)%nat
  ∧ slice_indices "apex" (nonzero_slices_of image mask)
    ++ take (length (nonzero_slices_of image mask)
             - 2 * (length (nonzero_slices_of image mask) / 3))
            (drop (length (nonzero_slices_of image mask) / 3)
                  (nonzero_slices_of image mask))
    ++ slice_indices "base" (nonzero_slices_of image mask)
    = nonzero_slices_of image mask
  ∧ ∀ i j, i ∈ slice_indices "apex" (nonzero_slices_of image mask) →
           j ∈ slice_indices "base" (nonzero_slices_of image mask) →
           (i < j)%nat.
Proof.
  set (ns := nonzero_slices_of image mask).
  assert (Hsorted : StronglySorted lt ns) by apply nonzero_from_sorted.
  destruct (slice_indices_regions ns) as (_ & -> & ->).
  set (n := length ns). set (k := (n / 3)%nat).
  assert (Hk : (3 * k ≤ n)%nat) by (apply Nat.Div0.mul_div_le).
  split_and!.
  - rewrite length_take. fold n. lia.
  - rewrite length_drop. fold n. lia.
  - rewrite app_assoc, take_take_drop.
    replace (k + (n - 2 * k))%nat with (n - k)%nat by lia.
    apply take_drop.
  - intros i j Hi Hj. rewrite <- (take_drop (n - k) ns) in Hsorted.
    eapply StronglySorted_app_1_elem_of; [exact Hsorted | | exact Hj].
    apply elem_of_take in Hi as (a & Ha & Hlt).
    apply elem_of_take. exists a. split; [done | lia].
Qed.

Lemma voxel_map {A B} (f : A → B) (a : array3 A) (z y x : nat) :
  voxel (map (map (map f)) a) z y x = f <$> voxel a z y x.
Proof.
  unfold voxel. rewrite list_lookup_fmap.
  destruct (a !! z) as [s|]; [|done]. cbn. rewrite list_lookup_fmap.
  destruct (s !! y) as [r|]; [|done]. cbn. by rewrite list_lookup_fmap.
Qed.

Lemma binary_array_formula (image : Image Q) (mask : Image Z) :
  binary_array (prepare_mask image mask)
  = map (map (map (λ v, if 0 <? v mod 256 then 1 else 0))) (pixels mask).
Proof.
  unfold binary_array, prepare_mask, np.positive_uint8, sitk.GetArrayFromImage,
    sitk.SetOrigin, sitk.SetDirection, sitk.Cast_UInt8. cbn [pixels].
  rewrite <- list_fmap_compose. apply list_fmap_ext. intros _ s _. cbn.
  rewrite <- list_fmap_compose. apply list_fmap_ext. intros _ r _. cbn.
  by rewrite <- list_fmap_compose.
Qed.

Lemma binary_array_binary (image : Image Q) (mask : Image Z) :
  binary (binary_array (prepare_mask image mask)).
Proof.
  rewrite binary_array_formula. unfold binary.
  apply Forall_fmap, Forall_true. intros s.
  apply Forall_fmap, Forall_true. intros r.
  apply Forall_fmap, Forall_true. intros v. cbn.
  destruct (0 <? v mod 256); [by right | by left].
Qed.

Lemma slice_indices_in_range (r : string) (a : array3 Z) :
  Forall (λ i, (i < length a)%nat) (slice_indices r (nonzero_slices a)).
Proof.
  apply Forall_forall. intros i Hi%slice_indices_subset.
  pose proof (nonzero_slices_in_range a) as Hall.
  rewrite Forall_forall in Hall. by apply Hall.
Qed.

(** The region mask of a region class, slice by slice. *)
Lemma new_mask_of_slices (image : Image Q) (mask : Image Z) (r : string) :
  let a := binary_array (prepare_mask image mask) in
  ∃ arr,
    new_mask_of image mask r
    = Ok (mkImage arr (spacing mask) (origin image) (direction image))
    ∧ ∀ j, arr !! j
           = if decide (j ∈ slice_indices r (nonzero_slices a)) then a !! j
             else map (map (λ _, 0)) <$> a !! j.
Proof.
  intros a.
  destruct (new_mask_of_spec image mask r) as (arr & Harr & Hnew & _).
  destruct (region_array_spec a _ (slice_indices_in_range r a))
    as (arr' & Harr' & _ & Hlook).
  fold a in Harr. assert (arr' = arr) as -> by congruence.
  by exists arr.
Qed.

(** X5. Every region mask is binary, whatever values the mask holds, and it
    marks a voxel only where the mask, cast to 8 bits, is positive. *)
Theorem region_mask_within_mask (image : Image Q) (mask : Image Z)
    (r : string) :
  ∃ new_mask,
    new_mask_of image mask r = Ok new_mask
    ∧ binary (pixels new_mask)
    ∧ ∀ z y x, voxel (pixels new_mask) z y x = Some 1 →
        ∃ v, voxel (pixels mask) z y x = Some v ∧ 0 < v mod 256.
Proof.
  destruct (new_mask_of_slices image mask r) as (arr & Hnew & Hlook).
  cbn zeta in Hlook. set (a := binary_array (prepare_mask image mask)) in *.
  pose proof (binary_array_binary image mask) as Hbin. fold a in Hbin.
  eexists. split; [exact Hnew|]. cbn [pixels]. split.
  - apply Forall_lookup. intros j s Hs. rewrite Hlook in Hs.
    destruct (decide (j ∈ _)).
    + unfold binary in Hbin. rewrite Forall_lookup in Hbin. by eapply Hbin.
    + destruct (a !! j) as [t|]; [|done]. cbn in Hs. injection Hs as <-.
      apply Forall_fmap, Forall_true. intros row.
      apply Forall_fmap, Forall_true. intros v. by left.
  - intros z y x Hv.
    assert (Ha : voxel a z y x = Some 1).
    { unfold voxel in *. rewrite Hlook in Hv.
      destruct (decide (z ∈ _)); [done|].
      destruct (a !! z) as [t|]; [|done]. cbn in Hv.
      rewrite list_lookup_fmap in Hv.
      destruct (t !! y) as [row|]; [|done]. cbn in Hv.
      rewrite list_lookup_fmap in Hv.
      destruct (row !! x); [|done]. cbn in Hv. done. }
    unfold a in Ha. rewrite binary_array_formula, voxel_map in Ha.
    destruct (voxel (pixels mask) z y x) as [v|]; [|done].
    exists v. split; [done|]. cbn in Ha.
    destruct (Z.ltb_spec 0 (v mod 256)); [done | congruence].
Qed.

Lemma zero_slice_map (s : list (list Z)) :
  zero_slice s → map (map (λ _, 0)) s = s.
Proof.
  unfold zero_slice. induction s as [|r s IH]; [done|].
  cbn [concat]. intros [Hr Hs]%Forall_app. cbn [map]. rewrite (IH Hs).
  f_equal. rewrite <- (list_fmap_id r) at 2.
  apply Forall_fmap_ext_1. eapply Forall_impl; [exact Hr|]. by intros v ->.
Qed.

(** X6. For a mask that fits numpy's index type, the mask of the whole
    region (of any region class other than "apex" and "base") is the
    binarised mask itself, with the spacing of the mask and the origin and
    direction of the image: selecting the nonzero slices drops nothing. *)
Theorem whole_region_mask (image : Image Q) (mask : Image Z) (r : string) :
  r ≠ "apex" → r ≠ "base" → addressable (pixels mask) →
  new_mask_of image mask r
  = Ok (mkImage (binary_array (prepare_mask image mask))
                (spacing mask) (origin image) (direction image)).
Proof.
  intros Hapex Hbase Haddr.
  destruct (new_mask_of_slices image mask r) as (arr & Hnew & Hlook).
  cbn zeta in Hlook. set (a := binary_array (prepare_mask image mask)) in *.
  rewrite Hnew. do 2 f_equal.
  assert (Hidx : slice_indices r (nonzero_slices a) = nonzero_slices a).
  { unfold slice_indices. by rewrite !decide_False. }
  rewrite Hidx in Hlook.
  assert (Ha : addressable a).
  { unfold addressable, a. rewrite binary_array_formula, ravel_map.
    by rewrite length_map. }
  destruct (nonzero_slices_sequence a (binary_array_binary image mask) Ha)
    as [_ Hseq].
  apply list_eq. intros j. rewrite Hlook.
  destruct (decide (j ∈ nonzero_slices a)) as [|Hnin]; [done|].
  destruct (a !! j) as [s|] eqn:Hs; [|done]. cbn. f_equal.
  apply zero_slice_map. unfold zero_slice. apply Forall_forall. intros v Hv.
  destruct (decide (v = 0)) as [|Hne]; [done|]. exfalso. apply Hnin, Hseq.
  exists s. split; [done|]. apply Exists_exists. by exists v.
Qed.

Lemma whole_region_mask_witness :
  new_mask_of sample_image sample_mask "wholeprostate"
  = Ok (mkImage (binary_array (prepare_mask sample_image sample_mask))
                (spacing sample_mask) (origin sample_image)
                (direction sample_image)).
Proof.
  apply whole_region_mask; [done | done |]. unfold addressable. cbn. lia.
Defined.

(** ** Masks that cannot be scored *)

Lemma empty_region_mask (image : Image Q) (mask : Image Z) (r : string) :
  slice_indices r (nonzero_slices (binary_array (prepare_mask image mask))) = [] →
  new_mask_of image mask r
  = Ok (mkImage (np.zeros_like (binary_array (prepare_mask image mask)))
                (spacing mask) (origin image) (direction image)).
Proof.
  intros Hidx. destruct (new_mask_of_spec image mask r) as (arr & Harr & Hnew & _).
  cbn zeta in Harr. rewrite Hidx in Harr. injection Harr as <-. exact Hnew.
Qed.

Lemma feature_vector_of_empty `{E : FeatureExtractor}
    (image : Image Q) (new_mask : Image Z) (fc : string) :
  np.sum (pixels new_mask) = 0 →
  feature_vector_of image new_mask fc
  = Raise (ValueError "Mask is empty. Cannot compute intensity range.").
Proof.
  intros Hsum. unfold feature_vector_of.
  by rewrite (get_settings_empty_mask _ _ _ Hsum).
Qed.

Lemma feature_extraction_raises `{E : FeatureExtractor}
    (image : Image Q) (mask : Image Z) (h : heap) (e : exn) :
  feature_vectors_of image mask region_classes feature_classes = Raise e →
  feature_extraction image mask h = Raise e.
Proof.
  intros Hfv. pose proof (feature_extraction_run image mask h) as Hrun.
  by rewrite Hfv in Hrun.
Qed.

(** X7. A mask with fewer than three nonzero slices is never scored:
    whatever the image and the extractor, [feature_extraction] raises,
    either what the extraction on the whole region raised or, at the apex,
    the [ValueError] of the empty mask. *)
Theorem too_few_slices_never_scored `{E : FeatureExtractor}
    (image : Image Q) (mask : Image Z) (h : heap) :
  (length (nonzero_slices_of image mask) < 3)%nat →
  ∃ e,
    feature_extraction image mask h = Raise e
    ∧ (e = ValueError "Mask is empty. Cannot compute intensity range."
       ∨ ∃ whole,
           new_mask_of image mask "wholeprostate" = Ok whole
           ∧ rmapM (feature_vector_of image whole) feature_classes = Raise e).
Proof.
  unfold nonzero_slices_of.
  set (ns := nonzero_slices (binary_array (prepare_mask image mask))).
  intros Hlen.
  destruct (new_mask_of_spec image mask "wholeprostate") as (arr & _ & Hwhole & _).
  destruct (rmapM (feature_vector_of image
              (mkImage arr (spacing mask) (origin image) (direction image)))
              feature_classes) as [fvs|e] eqn:Hfvs.
  - exists (ValueError "Mask is empty. Cannot compute intensity range.").
    split; [|by left]. apply feature_extraction_raises.
    unfold feature_vectors_of, region_classes. cbn [rmapM].
    rewrite Hwhole. cbn [rbind]. rewrite Hfvs. cbn [rbind].
    rewrite empty_region_mask.
    + cbn [rbind]. unfold feature_classes at 1. cbn [rmapM].
      rewrite feature_vector_of_empty; [done | apply sum_zeros_like].
    + fold ns. destruct (slice_indices_regions ns) as (_ & -> & _).
      rewrite Nat.div_small by done. apply take_0.
  - exists e. split.
    + apply feature_extraction_raises.
      unfold feature_vectors_of, region_classes. cbn [rmapM].
      rewrite Hwhole. cbn [rbind]. by rewrite Hfvs.
    + right. eexists. split; [exact Hwhole | exact Hfvs].
Qed.

Lemma too_few_slices_never_scored_witness :
  ∃ e,
    @feature_extraction sample_extractor sample_image thin_mask ∅ = Raise e
    ∧ (e = ValueError "Mask is empty. Cannot compute intensity range."
       ∨ ∃ whole,
           new_mask_of sample_image thin_mask "wholeprostate" = Ok whole
           ∧ rmapM (@feature_vector_of sample_extractor sample_image whole)
                   feature_classes = Raise e).
Proof.
  apply (@too_few_slices_never_scored sample_extractor sample_image thin_mask ∅).
  vm_compute. lia.
Defined.

Lemma nonzero_from_zeros {A} (k : nat) (a : list A) :
  np.nonzero_from k (map (λ _, 0) a) = [].
Proof.
  revert k. induction a as [|x a IH]; intros k; [done|].
  cbn. apply IH.
Qed.

(** X8. A mask without foreground (every voxel 0, or 0 once cast to 8
    bits) makes [feature_extraction] raise the [ValueError] of the empty
    mask, whatever the image and before the extractor is used. *)
Theorem empty_mask_raises `{E : FeatureExtractor}
    (image : Image Q) (mask : Image Z) (h : heap) :
  Forall (Forall (Forall (λ v, v mod 256 = 0))) (pixels mask) →
  feature_extraction image mask h
  = Raise (ValueError "Mask is empty. Cannot compute intensity range.").
Proof.
  intros Hzero.
  assert (Ha : binary_array (prepare_mask image mask)
               = np.zeros_like (pixels mask)).
  { rewrite binary_array_formula. unfold np.zeros_like.
    apply Forall_fmap_ext_1. eapply Forall_impl; [exact Hzero|].
    intros s Hs. cbn. apply Forall_fmap_ext_1.
    eapply Forall_impl; [exact Hs|]. intros r Hr. cbn.
    apply Forall_fmap_ext_1. eapply Forall_impl; [exact Hr|].
    intros v Hv. cbn. by rewrite Hv. }
  assert (Hns : nonzero_slices (binary_array (prepare_mask image mask)) = []).
  { rewrite Ha. unfold nonzero_slices, np.nonzero, np.sum_axis12.
    assert (Hsums : map (λ s, np.uint64 (np.total (concat s)))
                        (np.zeros_like (pixels mask))
                    = map (λ _, 0) (pixels mask)).
    { unfold np.zeros_like. rewrite <- list_fmap_compose.
      apply list_fmap_ext. intros _ s _. cbn.
      rewrite total_zeros; [done|]. apply zeros_like_zero_slice. }
    rewrite Hsums. apply nonzero_from_zeros. }
  apply feature_extraction_raises.
  unfold feature_vectors_of, region_classes. cbn [rmapM].
  rewrite empty_region_mask by by rewrite Hns.
  cbn [rbind]. unfold feature_classes at 1. cbn [rmapM].
  rewrite feature_vector_of_empty; [done | apply sum_zeros_like].
Qed.

Lemma empty_mask_raises_witness :
  @feature_extraction sample_extractor sample_image
    (mkImage [[[0; 0]]; [[0; 0]]; [[0; 0]]; [[0; 0]]; [[0; 0]]]
             [1; 1; 1]%Q [0; 0; 0]%Q [1; 0; 0; 0; 1; 0; 0; 0; 1]%Q) ∅
  = Raise (ValueError "Mask is empty. Cannot compute intensity range.").
Proof.
  apply (@empty_mask_raises sample_extractor). cbn [pixels].
  repeat (constructor; try done).
Defined.

(** ** One extraction *)

Lemma float_entries (raw fv : dict) :
  rmapM (λ kv, let? x := float_if_ndarray kv.2 in Ok (kv.1, x))%result raw
  = Ok fv →
  Forall2 converted raw fv ∧ Forall (λ kv, ∀ data, kv.2 ≠ VNdarray data) fv.
Proof.
  revert fv. induction raw as [|[k v] raw IH]; intros fv; cbn [rmapM].
  - intros [= <-]. split; constructor.
  - destruct (float_if_ndarray (k, v).2) as [x|e] eqn:Hx; cbn [rbind]; [|done].
    destruct (rmapM _ raw) as [fv'|e]; cbn [rbind]; [|done].
    intros [= <-]. destruct (IH fv' eq_refl) as [Hall Hno].
    cbn [snd] in Hx.
    assert (Hhead : converted (k, v) (k, x) ∧ ∀ data, x ≠ VNdarray data).
    { unfold converted. cbn [fst snd].
      destruct v as [q|[|q [|q' data']]|t|l']; cbn in Hx; try done;
        injection Hx as <-.
      - split; [split; [done|]; right; by split | done].
      - split; [split; [done|]; left; by exists q | done].
      - split; [split; [done|]; right; by split | done].
      - split; [split; [done|]; right; by split | done]. }
    destruct Hhead as [Hconv Hx'].
    split; [by constructor | by constructor].
Qed.

(** X9. When [extract_features] returns, the feature vector is a new
    object of the store and nothing else in the store has changed; it has
    the entries the extractor gave for the settings of [get_settings], in
    the same order and under the same names, with every one-element array
    turned into a float and every other value as it was; no array is left
    in it. *)
Theorem extract_features_result `{E : FeatureExtractor}
    (image : Image Q) (mask : Image Z) (fc : string) (h h' : heap) (l : loc) :
  extract_features image mask fc h = Ok (l, h') →
  ∃ settings raw fv,
    get_settings (pixels image) (pixels mask) 64 = Ok settings
    ∧ execute settings image mask fc = Ok raw
    ∧ h !! l = None
    ∧ h' = <[l := fv]> h
    ∧ Forall2 converted raw fv
    ∧ Forall (λ kv, ∀ data, kv.2 ≠ VNdarray data) fv.
Proof.
  rewrite extract_features_run. unfold feature_vector_of.
  destruct (get_settings (pixels image) (pixels mask) 64) as [st|e];
    cbn [rbind]; [|done].
  destruct (execute st image mask fc) as [raw|e] eqn:Hraw; cbn [rbind]; [|done].
  destruct (rmapM _ raw) as [fv|e] eqn:Hfv; [|done].
  intros [= <- <-]. destruct (float_entries raw fv Hfv) as [Hall Hno].
  exists st, raw, fv.
  split_and!; [done | done | apply not_elem_of_dom, is_fresh | done..].
Qed.

Lemma extract_features_result_witness :
  ∃ settings raw fv,
    get_settings (pixels sample_image) (pixels sample_mask) 64 = Ok settings
    ∧ @execute sample_extractor settings sample_image sample_mask "shape"
      = Ok raw
    ∧ (∅ : heap) !! 0%nat = None
    ∧ <[0%nat := [("diagnostics_Versions_PyRadiomics", VStr "v3");
                  ("original_shape_BinWidth", VFloat (30 # 64));
                  ("original_shape_VoxelNum", VFloat 4);
                  ("original_shape_Spacing", VFloat 2)]]> (∅ : heap)
      = <[0%nat := fv]> (∅ : heap)
    ∧ Forall2 converted raw fv
    ∧ Forall (λ kv, ∀ data, kv.2 ≠ VNdarray data) fv.
Proof.
  apply (@extract_features_result sample_extractor sample_image sample_mask
           "shape" ∅). reflexivity.
Defined.

(** X10. When the extractor gives an array that does not hold exactly one
    element, [extract_features] raises [TypeError] and returns no vector. *)
Theorem extract_features_array_error `{E : FeatureExtractor}
    (image : Image Q) (mask : Image Z) (fc : string) (h : heap)
    settings (raw : dict) (name : string) (data : list Q) :
  get_settings (pixels image) (pixels mask) 64 = Ok settings →
  execute settings image mask fc = Ok raw →
  (name, VNdarray data) ∈ raw → length data ≠ 1%nat →
  extract_features image mask fc h
  = Raise (TypeError "only length-1 arrays can be converted to Python scalars").
Proof.
  intros Hst Hraw Hin Hlen. rewrite extract_features_run.
  unfold feature_vector_of. rewrite Hst. cbn [rbind]. rewrite Hraw.
  cbn [rbind]. clear Hraw.
  assert (Hr : rmapM (λ kv, let? x := float_if_ndarray kv.2 in Ok (kv.1, x))%result
                 raw
               = Raise (TypeError
                   "only length-1 arrays can be converted to Python scalars"));
    [|by rewrite Hr].
  induction raw as [|[k v] raw IH]; [by apply elem_of_nil in Hin|].
  cbn [rmapM snd].
  apply elem_of_cons in Hin as [Heq|Hin].
  - injection Heq as <- <-.
    destruct data as [|q [|q' data']]; cbn in *; done.
  - destruct (float_if_ndarray v) as [x|e] eqn:Hx; cbn [rbind].
    + by rewrite (IH Hin).
    + destruct v as [q|[|q [|q' data']]|t|l']; cbn in Hx; congruence.
Qed.

Lemma extract_features_array_error_witness :
  @extract_features
    (λ _ _ _ _, Ok [("original_shape_Axes", VNdarray [1; 2; 3]%Q)])
    sample_image sample_mask "shape" ∅
  = Raise (TypeError "only length-1 arrays can be converted to Python scalars").
Proof.
  eapply (@extract_features_array_error _ sample_image sample_mask "shape" ∅
            _ _ "original_shape_Axes" [1; 2; 3]%Q).
  - reflexivity.
  - reflexivity.
  - by left.
  - cbn. lia.
Defined.
(** ** Filtering again, and what the assembler leaves alone *)

Lemma without_diagnostics_idem (fv : dict) :
  without_diagnostics (without_diagnostics fv) = without_diagnostics fv.
Proof. unfold without_diagnostics. by apply list_filter_filter_r. Qed.

(** X12. Calling [extract_filtered_values] a second time on the same
    dictionary returns the same values as the first call, and the
    dictionary still holds the filtered vectors: the filtering is
    idempotent. *)
Theorem extract_filtered_values_twice (h : heap) (l : loc)
    (c : list (string * dict)) :
  dict_at h l c → NoDup c.*1 →
  ∃ values_array h1 h2,
    extract_filtered_values l h = Ok (values_array, h1)
    ∧ extract_filtered_values l h1 = Ok (values_array, h2)
    ∧ dict_at h2 l ((λ kfv, (kfv.1, without_diagnostics kfv.2)) <$> c).
Proof.
  intros Hat Hnd.
  destruct (extract_filtered_values_spec h l c Hat Hnd)
    as (h1 & d1 & Hrun1 & Hl1 & Hall1 & _).
  set (c' := (λ kfv, (kfv.1, without_diagnostics kfv.2)) <$> c) in *.
  assert (Hc' : (λ kfv : string * dict, (kfv.1, without_diagnostics kfv.2)) <$> c'
                = c').
  { unfold c'. rewrite <- list_fmap_compose. apply list_fmap_ext.
    intros _ [k fv] _. cbn. by rewrite without_diagnostics_idem. }
  assert (Hat1 : dict_at h1 l c') by by exists d1.
  assert (Hnd1 : NoDup c'.*1).
  { unfold c'. rewrite <- list_fmap_compose.
    replace ((fst ∘ λ kfv : string * dict, (kfv.1, without_diagnostics kfv.2))
               <$> c) with c.*1; [done|].
    apply list_fmap_ext. by intros _ [k fv] _. }
  destruct (extract_filtered_values_spec h1 l c' Hat1 Hnd1)
    as (h2 & d2 & Hrun2 & Hl2 & Hall2 & _).
  rewrite Hc' in Hall2.
  eexists _, h1, h2. split_and!; [exact Hrun1 | | by exists d2].
  rewrite Hrun2. do 3 f_equal. unfold c'. rewrite <- list_fmap_compose.
  apply list_fmap_ext. intros _ [k fv] _. cbn. unfold predictors_of.
  by rewrite without_diagnostics_idem.
Qed.

Lemma extract_filtered_values_twice_witness :
  ∃ values_array h1 h2,
    extract_filtered_values 0%nat sample_store = Ok (values_array, h1)
    ∧ extract_filtered_values 0%nat h1 = Ok (values_array, h2)
    ∧ dict_at h2 0%nat
        ((λ kfv, (kfv.1, without_diagnostics kfv.2)) <$> sample_contents).
Proof.
  apply (extract_filtered_values_twice sample_store 0%nat sample_contents).
  - apply sample_store_holds.
  - apply (bool_decide_unpack _). vm_compute. exact I.
Defined.

Lemma for_invariant {A} (P : heap → Prop) (xs : list A) (body : A → M unit) :
  (∀ x h h', P h → body x h = Ok (tt, h') → P h') →
  ∀ h h', P h → for_ xs body h = Ok (tt, h') → P h'.
Proof.
  intros Hbody. induction xs as [|x xs IH]; intros h h' HP.
  - by intros [= <-].
  - rewrite for_cons. destruct (body x h) as [[[] h1]|e] eqn:Hx; [|done].
    apply IH. by eapply Hbody.
Qed.

(** The loops of [extract_radiomics_features] write to their own
    dictionary and to new objects only. *)
Lemma extract_radiomics_features_frame `{E : FeatureExtractor}
    (image : Image Q) (mask : Image Z) (rcs fcs : list string)
    (h h1 : heap) (l : loc) :
  extract_radiomics_features image mask rcs fcs h = Ok (l, h1) →
  l = fresh (dom h) ∧ ∀ l0, l0 ∈ dom h → h1 !! l0 = h !! l0.
Proof.
  set (l' := fresh (dom h)). set (h0 := <[l' := []]> h).
  assert (Heq : extract_radiomics_features image mask rcs fcs h
                = match for_ rcs (outer_body E image mask fcs l') h0 with
                  | Ok (_, h') => Ok (l', h')
                  | Raise e => Raise e
                  end) by reflexivity.
  rewrite Heq. clear Heq.
  destruct (for_ rcs _ h0) as [[[] h']|e] eqn:Hrun; [|done].
  intros [= <- <-]. split; [done|].
  set (P := λ hx : heap,
         is_Some (hx !! l') ∧ ∀ l0, l0 ∈ dom h → hx !! l0 = h !! l0).
  assert (HP : P h').
  { eapply (for_invariant P); [| |exact Hrun].
    - intros r hx hx' HPx Hb. cbn beta in Hb. rewrite outer_turn in Hb.
      destruct (new_mask_of image mask r) as [nm|e]; [|done].
      revert Hb. apply (for_invariant P); [|exact HPx].
      intros fc hy hy' [[d Hd] Hfr] Hb. cbn beta in Hb.
      rewrite (inner_turn image nm r l' fc hy d Hd) in Hb.
      destruct (feature_vector_of image nm fc) as [fv|e]; [|done].
      injection Hb as <-. split; [by rewrite lookup_insert_eq|].
      intros l0 Hl0.
      assert (l0 ≠ l') by (intros ->; by apply (is_fresh (dom h))).
      rewrite lookup_insert_ne by done.
      rewrite lookup_insert_ne; [by apply Hfr|].
      apply fresh_not_in. apply elem_of_dom. rewrite (Hfr l0 Hl0).
      by apply elem_of_dom.
    - split; [unfold h0; by rewrite lookup_insert_eq|].
      intros l0 Hl0. unfold h0. rewrite lookup_insert_ne; [done|].
      intros <-. by apply (is_fresh (dom h)). }
  apply HP.
Qed.

(** X13. [extract_radiomics_features] returns a reference to a new
    dictionary, and neither it nor [feature_extraction] changes any object
    that was in the store before the call: the in-place filtering touches
    the new dictionary only. *)
Theorem assembler_leaves_store `{E : FeatureExtractor}
    (image : Image Q) (mask : Image Z) (h : heap) :
  (∀ rcs fcs l h1,
     extract_radiomics_features image mask rcs fcs h = Ok (l, h1) →
     h !! l = None ∧ ∀ l0, l0 ∈ dom h → h1 !! l0 = h !! l0)
  ∧ ∀ features_values h',
      feature_extraction image mask h = Ok (features_values, h') →
      ∀ l0, l0 ∈ dom h → h' !! l0 = h !! l0.
Proof.
  split.
  - intros rcs fcs l h1 Hrun.
    destruct (extract_radiomics_features_frame _ _ _ _ _ _ _ Hrun) as [-> Hfr].
    split; [apply not_elem_of_dom, is_fresh | done].
  - intros vals h' Hrun l0 Hl0.
    pose proof (extract_radiomics_features_spec image mask region_classes
                  feature_classes h keys_NoDup) as Hbuild.
    pose proof (feature_vectors_of_length image mask region_classes
                  feature_classes) as Hlen.
    unfold feature_extraction in Hrun. unfold bind at 1 in Hrun.
    destruct (feature_vectors_of image mask region_classes feature_classes)
      as [fvss|e]; [|rewrite Hbuild in Hrun; cbn beta iota in Hrun; discriminate Hrun].
    destruct Hbuild as (l & h1 & Hext & Hat). rewrite Hext in Hrun.
    cbn beta iota in Hrun.
    destruct (extract_radiomics_features_frame _ _ _ _ _ _ _ Hext) as [Hl Hfr1].
    destruct (extract_filtered_values_spec h1 l _ Hat)
      as (h2 & d2 & Hflat & _ & _ & Hfr2 & _).
    { rewrite fst_zip by (rewrite (Hlen fvss eq_refl); lia). apply keys_NoDup. }
    unfold bind at 1 in Hrun. rewrite Hflat in Hrun.
    cbn beta iota in Hrun. unfold ret in Hrun. injection Hrun as _ <-.
    rewrite Hfr2; [by apply Hfr1 | |].
    + intros ->. rewrite Hl in Hl0. by apply (is_fresh (dom h)).
    + apply elem_of_dom. rewrite (Hfr1 l0 Hl0). by apply elem_of_dom.
Qed.

Lemma assembler_leaves_store_witness :
  match @feature_extraction sample_extractor sample_image sample_mask
          sample_store with
  | Ok (_, h') => h' !! 1%nat = sample_store !! 1%nat
  | Raise _ => False
  end.
Proof.
  destruct (@feature_extraction sample_extractor sample_image sample_mask
              sample_store) as [[vals h']|e] eqn:Hrun.
  - destruct (@assembler_leaves_store sample_extractor sample_image
                sample_mask sample_store) as [_ Hfr].
    apply (Hfr vals h' Hrun). apply elem_of_dom. by eexists.
  - vm_compute in Hrun. discriminate Hrun.
Defined.

(** ** The score and its class *)

(** [predict_score] returns only for as many predictors as
    coefficients. *)
Lemma predict_score_inv (predictors coefs : list Q) (b s : Q) :
  predict_score predictors coefs b = Ok s →
  length predictors = length coefs.
Proof.
  unfold predict_score, calculate_quality_score, np.dot.
  by destruct (decide (length predictors = length coefs)) as [Hlen|].
Qed.

Lemma quality_prediction_inv (coefs : result (list Q)) (features_values : list Q)
    (t s : Q) (c : string) :
  quality_prediction coefs features_values t = Ok (s, c) →
  ∃ cs, coefs = Ok cs
        ∧ predict_score features_values cs intercept = Ok s
        ∧ c = classify_quality s t.
Proof.
  unfold quality_prediction. destruct coefs as [cs|e]; cbn [rbind]; [|done].
  destruct (predict_score features_values cs intercept) as [s'|e] eqn:Hs;
    cbn [rbind]; [|done].
  intros [= <- <-]. by exists cs.
Qed.

(** X17. A threshold outside the documented range decides the class by
    itself: with a threshold of 0 or less every score that comes back is
    acceptable, and with a threshold above 100 none is. *)
Theorem threshold_outside_range (coefs : result (list Q))
    (features_values : list Q) (t s : Q) (c : string) :
  quality_prediction coefs features_values t = Ok (s, c) →
  ((t <= 0)%Q → c = "Acceptable") ∧ ((100 < t)%Q → c = "NOT Acceptable").
Proof.
  intros Hrun.
  destruct (quality_prediction_inv _ _ _ _ _ Hrun) as (cs & _ & Hs & ->).
  destruct (score_range _ _ _ _ Hs) as [Hlo Hhi].
  unfold classify_quality. split; intros Ht.
  - destruct (py.lt s t) eqn:Hlt; [|done]. apply py_lt_spec in Hlt. lra.
  - destruct (py.lt s t) eqn:Hlt; [done|]. apply py_lt_false in Hlt. lra.
Qed.

Lemma threshold_outside_range_witness :
  ((101 <= 0)%Q → "NOT Acceptable" = "Acceptable")
  ∧ ((100 < 101)%Q → "NOT Acceptable" = "NOT Acceptable").
Proof.
  apply (threshold_outside_range (Ok [1; 1]%Q) [100; 600]%Q 101 100
           "NOT Acceptable").
  vm_compute. reflexivity.
Defined.

(** ** The whole pipeline *)

Lemma few_slices_raise `{E : FeatureExtractor}
    (image : Image Q) (mask : Image Z) (h : heap) :
  (length (nonzero_slices_of image mask) < 3)%nat →
  ∃ e, feature_extraction image mask h = Raise e.
Proof.
  unfold nonzero_slices_of.
  set (ns := nonzero_slices (binary_array (prepare_mask image mask))).
  intros Hlen.
  destruct (new_mask_of_spec image mask "wholeprostate") as (arr & _ & Hwhole & _).
  destruct (rmapM (feature_vector_of image
              (mkImage arr (spacing mask) (origin image) (direction image)))
              feature_classes) as [fvs|e] eqn:Hfvs.
  - exists (ValueError "Mask is empty. Cannot compute intensity range.").
    apply feature_extraction_raises.
    unfold feature_vectors_of, region_classes. cbn [rmapM].
    rewrite Hwhole. cbn [rbind]. rewrite Hfvs. cbn [rbind].
    rewrite empty_region_mask.
    + cbn [rbind]. unfold feature_classes at 1. cbn [rmapM].
      rewrite feature_vector_of_empty; [done | apply sum_zeros_like].
    + fold ns. destruct (slice_indices_regions ns) as (_ & -> & _).
      rewrite Nat.div_small by done. apply take_0.
  - exists e. apply feature_extraction_raises.
    unfold feature_vectors_of, region_classes. cbn [rmapM].
    rewrite Hwhole. cbn [rbind]. by rewrite Hfvs.
Qed.

(** X18. What [psqc] prints follows what it does: when it returns a score
    and a class it has printed the start line, that score and class, and the
    difference of the two clock readings, in this order, the score lies in
    [0, 100] and the class is the one of the score for the threshold; when
    it raises, only the start line was printed. *)
Theorem psqc_report `{E : FeatureExtractor} `{FQ : VolumeFiles Q}
    `{FZ : VolumeFiles Z} `{N : Normalizer} (coefs : result (list Q))
    (input_image_path input_mask_path : string) (input_normalized : bool)
    (quality_class_threshold start_time end_time : Q) (h : heap)
    (out : list line) (r : result (Q * string)) :
  psqc coefs input_image_path input_mask_path input_normalized
       quality_class_threshold start_time end_time h = (out, r) →
  match r with
  | Ok (quality_score, quality_class) =>
      out = [Started input_image_path input_mask_path;
             Scored quality_score quality_class;
             Done (end_time - start_time)]
      ∧ (0 <= quality_score <= 100)%Q
      ∧ quality_class = classify_quality quality_score quality_class_threshold
  | Raise _ => out = [Started input_image_path input_mask_path]
  end.
Proof.
  unfold psqc.
  destruct (prepare_data _ _ _) as [[image mask]|e]; [|by intros [= <- <-]].
  destruct (feature_extraction image mask h) as [[fv h']|e];
    [|by intros [= <- <-]].
  destruct coefs as [cs|e]; cbn [rbind]; [|by intros [= <- <-]].
  destruct (predictors_array fv) as [ps|e]; cbn [rbind]; [|by intros [= <- <-]].
  destruct (quality_prediction (Ok cs) ps quality_class_threshold)
    as [[s c]|e] eqn:Hq; [|by intros [= <- <-]].
  intros [= <- <-].
  destruct (quality_prediction_inv _ _ _ _ _ Hq) as (cs' & _ & Hs & ->).
  pose proof (score_range _ _ _ _ Hs) as Hrange.
  split; [reflexivity | split; [exact Hrange | reflexivity]].
Qed.

Lemma psqc_report_witness :
  [Started "img.nii" "msk.nii"; Scored (1624 # 25) "Acceptable"; Done 2]
  = [Started "img.nii" "msk.nii"; Scored (1624 # 25) "Acceptable";
     Done (12 - 10)]
  ∧ (0 <= 1624 # 25 <= 100)%Q
  ∧ "Acceptable" = classify_quality (1624 # 25) 60.
Proof.
  apply (@psqc_report sample_extractor (sample_files sample_image)
           (sample_files sample_mask) sample_normalizer (Ok sample_coefs)
           "img.nii" "msk.nii" true 60 10 12 ∅
           [Started "img.nii" "msk.nii"; Scored (1624 # 25) "Acceptable";
            Done 2]
           (Ok (1624 # 25, "Acceptable"))).
  vm_compute. reflexivity.
Defined.

(** X19. [psqc] returns a score only if both volumes were obtained, the
    mask has at least three nonzero slices, the coefficient file was read,
    every feature value is a number, and there are exactly as many feature
    values as coefficients. *)
Theorem psqc_scores_only_if `{E : FeatureExtractor} `{FQ : VolumeFiles Q}
    `{FZ : VolumeFiles Z} `{N : Normalizer} (coefs : result (list Q))
    (input_image_path input_mask_path : string) (input_normalized : bool)
    (quality_class_threshold start_time end_time : Q) (h : heap)
    (out : list line) (quality_score : Q) (quality_class : string) :
  psqc coefs input_image_path input_mask_path input_normalized
       quality_class_threshold start_time end_time h
  = (out, Ok (quality_score, quality_class)) →
  ∃ image mask features_values h' cs predictors,
    prepare_data input_image_path input_mask_path input_normalized
    = Ok (image, mask)
    ∧ (3 ≤ length (nonzero_slices_of image mask))%nat
    ∧ feature_extraction image mask h = Ok (features_values, h')
    ∧ coefs = Ok cs
    ∧ features_values = VFloat <$> predictors
    ∧ length features_values = length cs.
Proof.
  unfold psqc.
  destruct (prepare_data _ _ _) as [[image mask]|e]; [|done].
  destruct (feature_extraction image mask h) as [[fv h']|e] eqn:Hfe; [|done].
  destruct coefs as [cs|e]; cbn [rbind]; [|done].
  destruct (predictors_array fv) as [ps|e] eqn:Hps; cbn [rbind]; [|done].
  destruct (quality_prediction (Ok cs) ps quality_class_threshold)
    as [[s c]|e] eqn:Hq; [|done].
  intros _. exists image, mask, fv, h', cs, ps.
  assert (Hfv : fv = VFloat <$> ps).
  { clear -Hps. revert ps Hps. unfold predictors_array.
    induction fv as [|v fv IH]; intros ps; cbn [rmapM].
    - by intros [= <-].
    - destruct v as [x| | |]; cbn [rbind]; try done.
      destruct (rmapM _ fv) as [ps'|e]; cbn [rbind]; [|done].
      intros [= <-]. cbn. by rewrite <- (IH ps'). }
  split_and!; try done.
  - destruct (decide (3 ≤ length (nonzero_slices_of image mask))%nat)
      as [|Hfew]; [done|].
    destruct (few_slices_raise image mask h) as [e He]; [lia|].
    by rewrite He in Hfe.
  - destruct (quality_prediction_inv _ _ _ _ _ Hq) as (cs' & [= <-] & Hs & _).
    pose proof (predict_score_inv _ _ _ _ Hs) as Hlen.
    rewrite <- Hlen, Hfv. by rewrite length_fmap.
Qed.

Lemma psqc_scores_only_if_witness :
  ∃ image mask features_values h' cs predictors,
    @prepare_data (sample_files sample_image) (sample_files sample_mask)
      sample_normalizer "img.nii" "msk.nii" true
    = Ok (image, mask)
    ∧ (3 ≤ length (nonzero_slices_of image mask))%nat
    ∧ @feature_extraction sample_extractor image mask ∅
      = Ok (features_values, h')
    ∧ Ok sample_coefs = Ok cs
    ∧ features_values = VFloat <$> predictors
    ∧ length features_values = length cs.
Proof.
  apply (@psqc_scores_only_if sample_extractor (sample_files sample_image)
           (sample_files sample_mask) sample_normalizer (Ok sample_coefs)
           "img.nii" "msk.nii" true 60 10 12 ∅
           [Started "img.nii" "msk.nii"; Scored (1624 # 25) "Acceptable";
            Done 2]
           (1624 # 25) "Acceptable").
  vm_compute. reflexivity.
Defined.
